(** * The managed wrapper of the global notifier

    A shallow embedding of [wrappers/src/global_notifier_cs.cpp]: the
    [Callback] class that bridges the engine's [GlobalNotifier::Callback]
    interface to the four function pointers installed by the managed side,
    and the exported [realm_server_*] entry points.

    Conventions.
    - A raw pointer is an [N]; [0] is [nullptr].  Objects created with
      [new] live in a heap ([gmap N Object]); [delete] removes them.
    - A [(const char*, size_t)] pair is the string it denotes; a null
      buffer is [None].
    - [size_t] indices are [N]: the wrapper only copies them.
    - Calls through the installed function pointers are recorded, oldest
      first, in the [calls] of the world; so are the lines sent to the
      logger.
    - C++ control effects are the three constructors of [Outcome]: normal
      return, a thrown exception, and [realm::util::terminate]. *)

From Stdlib Require Import ZArith NArith List String Bool Sorted Lia.
From stdpp Require Import gmap strings.
Import ListNotations.

Local Open Scope N_scope.

(** ** Exceptions *)

(** What [std::rethrow_exception] can raise, by the handler that catches it
    in [Callback::error]. *)
Inductive exception : Type :=
| system_error (code : Z) (message : string)
| std_exception (what : string)
| foreign_exception (tag : N).

(** ** Index sets *)

(** Modelled from the spec: the engine's [IndexSet] (object store, not part
    of the sources).  "A sparse set of integer positions (internally
    range-compressed)": a list of half-open ranges [(first, second)], kept
    ascending with a gap between consecutive ranges. *)
Definition IndexSet : Type := list (N * N).

Fixpoint ranges_from (lo : N) (s : IndexSet) : bool :=
  match s with
  | [] => true
  | (first, second) :: rest =>
      (lo <=? first) && (first <? second) && ranges_from (second + 1) rest
  end.

(** The class invariant of an index set. *)
Definition IndexSet_wf (s : IndexSet) : bool := ranges_from 0 s.

(** Modelled from the spec: [IndexSet::add], adding one position; a position
    that is already present changes nothing, a position next to a range
    extends it, and a position that closes the gap between two ranges joins
    them. *)
Fixpoint IndexSet_add (index : N) (s : IndexSet) : IndexSet :=
  match s with
  | [] => [(index, index + 1)]
  | (first, second) :: rest =>
      if index + 1 <? first then (index, index + 1) :: s
      else if index + 1 =? first then (index, second) :: rest
      else if index <? second then s
      else if index =? second then
        match rest with
        | (first', second') :: rest' =>
            if index + 1 =? first' then (first, second') :: rest'
            else (first, index + 1) :: rest
        | [] => [(first, index + 1)]
        end
      else (first, second) :: IndexSet_add index rest
  end.

(** The set holding the given positions, added one after the other. *)
Definition IndexSet_of_positions (positions : list N) : IndexSet :=
  fold_left (fun s index => IndexSet_add index s) positions [].

(** The positions [first], [first + 1], ..., [first + count - 1]. *)
Definition range_indexes (first count : N) : list N :=
  map N.of_nat (seq (N.to_nat first) (N.to_nat count)).

(** Modelled from the spec: [IndexSet::as_indexes], the positions of the
    set in range order. *)
Definition as_indexes (s : IndexSet) : list N :=
  flat_map (fun r => range_indexes (fst r) (snd r - fst r)) s.

(** Modelled from the spec: [get_indexes_vector] of [notifications_cs.hpp]
    (not part of the sources).  "Every IndexDiff in every ChangeSet is
    converted to an explicit ascending index list"; "the flattening step is
    unconditional". *)
Definition get_indexes_vector (indexSet : IndexSet) : list N :=
  as_indexes indexSet.

(** ** Snapshots and change notifications *)

(** A [Realm] as far as the wrapper looks into it: [config().path]. *)
Record Realm : Type := { config_path : string; version : N }.

(** [SharedRealm] is [std::shared_ptr<Realm>]; [None] is the empty
    pointer. *)
Definition SharedRealm : Type := option Realm.

(** The engine's [CollectionChangeSet], the four index sets the wrapper
    reads. *)
Record CollectionChangeSet : Type := {
  cs_deletions : IndexSet;
  cs_insertions : IndexSet;
  cs_modifications : IndexSet;
  cs_modifications_new : IndexSet;
}.

(** What a call into the engine gives: a value or an exception. *)
Inductive Exc (A : Type) : Type :=
| Value (a : A)
| Raise (e : exception).
Arguments Value {A} a.
Arguments Raise {A} e.

(** Modelled from the spec: [GlobalNotifier::ChangeNotification] (object
    store, not part of the sources).  "One committed transition on one
    Store: [realm_path], an optional previous snapshot, the new snapshot
    (always present), and a lazily-computed mapping from collection name to
    ChangeSet"; computing the changes "is side-effect-free", so what each
    accessor gives is fixed by the notification.  [get_changes] lists the
    mapping in its iteration order. *)
Record ChangeNotification : Type := {
  realm_path : string;
  get_changes : Exc (list (string * CollectionChangeSet));
  get_old_realm : Exc SharedRealm;
  get_new_realm : Exc Realm;
}.

(** [Realm::Config] as far as the wrapper touches it: the path, which it
    copies, and the [cache] flag, which it sets. *)
Record RealmConfig : Type := {
  realm_config_path : string;
  realm_config_cache : bool;
}.

(** ** The diff computation *)

(** Modelled from the spec: a row of a collection, with the identity that
    tells a row apart and the "content hash/version" that tells whether it
    changed. *)
Record Row : Type := { row_identity : N; row_content : N }.

(** Modelled from the spec: a snapshot, "an immutable, point-in-time view
    of a Store's data at a given transaction version": the realm it is a
    view of and its collections, by name. *)
Record Snapshot : Type := {
  snapshot_realm : Realm;
  collections : list (string * list Row);
}.

Definition has_identity (identity : N) (rows : list Row) : bool :=
  existsb (fun r => row_identity r =? identity) rows.

(** The row of [other] with the identity of [r] has another content. *)
Definition changed_in (other : list Row) (r : Row) : bool :=
  match List.find (fun r' => row_identity r' =? row_identity r) other with
  | Some r' => negb (row_content r' =? row_content r)
  | None => false
  end.

(** The positions, counted from [position], of the rows that [keep]
    accepts. *)
Fixpoint positions_where (keep : Row -> bool) (rows : list Row)
    (position : N) : list N :=
  match rows with
  | [] => []
  | r :: rest =>
      if keep r then position :: positions_where keep rest (position + 1)
      else positions_where keep rest (position + 1)
  end.

(** Modelled from the spec: the diff of one collection, "the classic
    three-way set difference between previous and current row identity
    sets - rows whose identity exists only in previous -> deletions; only
    in current -> insertions; in both but with a different content
    hash/version -> modifications, recorded in both coordinate spaces". *)
Definition diff_collection (previous_rows current_rows : list Row)
    : CollectionChangeSet :=
  {| cs_deletions :=
       IndexSet_of_positions
         (positions_where
            (fun r => negb (has_identity (row_identity r) current_rows))
            previous_rows 0);
     cs_insertions :=
       IndexSet_of_positions
         (positions_where
            (fun r => negb (has_identity (row_identity r) previous_rows))
            current_rows 0);
     cs_modifications :=
       IndexSet_of_positions
         (positions_where (changed_in current_rows) previous_rows 0);
     cs_modifications_new :=
       IndexSet_of_positions
         (positions_where (changed_in previous_rows) current_rows 0) |}.

(** The rows of the collection [name]; none when the snapshot has no such
    collection. *)
Definition rows_of (name : string) (tables : list (string * list Row))
    : list Row :=
  match List.find (fun t => String.eqb (fst t) name) tables with
  | Some t => snd t
  | None => []
  end.

(** "Each collection present in either snapshot": those of the previous
    one, then those only the current one has. *)
Definition collection_names (previous_tables current_tables
    : list (string * list Row)) : list string :=
  map fst previous_tables
  ++ List.filter
       (fun name =>
          negb (existsb (String.eqb name) (map fst previous_tables)))
       (map fst current_tables).

(** Modelled from the spec: the diff computation of section 4.2, from a
    previous snapshot, absent for the first version of a store, to the
    current one.  A collection that only one snapshot has is diffed
    against no rows, which gives insertions only or deletions only. *)
Definition compute_changes (previous_snapshot : option Snapshot)
    (current_snapshot : Snapshot) : list (string * CollectionChangeSet) :=
  let previous_tables :=
    match previous_snapshot with
    | Some snapshot => collections snapshot
    | None => []
    end in
  map (fun name =>
         (name,
          diff_collection (rows_of name previous_tables)
            (rows_of name (collections current_snapshot))))
    (collection_names previous_tables (collections current_snapshot)).




(** ** The marshalled notification *)

(** An entry of [changesets_buf]. *)
Record MarshaledChangeSet : Type := {
  class_name : string;
  deletions : list N;
  insertions : list N;
  previous_modifications : list N;
  current_modifications : list N;
}.

(** [struct MarshaledChangeNotification]; [previous] and [current] are
    [SharedRealm*]. *)
Record MarshaledChangeNotification : Type := {
  path : string;
  path_on_disk : string;
  previous : N;
  current : N;
  changesets : list MarshaledChangeSet;
}.

(** ** The callback object and the engine's notifier *)

(** [class Callback]; its logger writes to the world. *)
Record Callback : Type := {
  m_managed_instance : N;
  m_did_download : bool;
}.

(** The marshalled [SyncConfiguration] of [sync_manager_cs.hpp], with the
    fields the wrapper reads; a UTF-16 buffer is the list of its code
    units. *)
Record SyncConfiguration : Type := {
  user : N;
  url : list N;
  client_validate_ssl : bool;
  trusted_ca_path : list N;
  partial_sync_identifier : list N;
}.

Inductive SyncSessionStopPolicy : Type :=
| Immediately
| LiveIndefinitely
| AfterChangesUploaded.

(** The functions of [sync_session_cs.hpp] stored in a [SyncConfig]. *)
Inductive SessionHandler : Type :=
| no_handler
| bind_session
| handle_session_error.

(** [SyncConfig] with the fields the wrapper sets. *)
Record SyncConfig : Type := {
  config_user : N;
  config_realm_url : string;
  config_bind_session_handler : SessionHandler;
  config_error_handler : SessionHandler;
  config_stop_policy : SyncSessionStopPolicy;
  config_client_validate_ssl : bool;
  config_ssl_trust_certificate_path : string;
}.

(** Modelled from the spec: the engine's [GlobalNotifier] (object store,
    not part of the sources): the callback target it owns, whether
    [start()] has made it listen, and the "internal FIFO queue" of ready
    notifications, oldest first. *)
Record GlobalNotifier : Type := {
  target : Callback;
  working_dir : string;
  sync_config : SyncConfig;
  listening : bool;
  ready : list ChangeNotification;
}.

(** ** The world *)

(** What [new] can create in this file. *)
Inductive Object : Type :=
| NotifierHandle (notifier : GlobalNotifier)
| NotificationObject (change : ChangeNotification)
| SharedRealmObject (realm : SharedRealm).

(** A call through one of the installed function pointers. *)
Inductive Call : Type :=
| should_handle_call (managed_instance : N) (path : string)
| enqueue_calculation_call (managed_instance : N) (path : string)
    (notification : N)
| start_call (managed_instance : N) (error_code : Z)
    (message : option string)
| calculation_complete_call (change : MarshaledChangeNotification)
    (managed_callback : N).

Inductive LogLevel : Type := level_trace | level_fatal.

Record World : Type := {
  heap : gmap N Object;
  next_addr : positive;
  calls : list Call;
  logged : list (LogLevel * string);
}.

(** ** Computations *)

(** How a piece of C++ ends: it returns, it throws, it calls
    [realm::util::terminate], or it has undefined behaviour (here: [delete]
    of a pointer that is neither null nor a live object of the type). *)
Inductive Outcome (A : Type) : Type :=
| Returns (a : A) (w : World)
| Throws (e : exception) (w : World)
| Terminated (message : string) (w : World)
| Undefined (w : World).
Arguments Returns {A} a w.
Arguments Throws {A} e w.
Arguments Terminated {A} message w.
Arguments Undefined {A} w.

Definition Run (A : Type) : Type := World -> Outcome A.

Definition final_world {A} (o : Outcome A) : World :=
  match o with
  | Returns _ w | Throws _ w | Terminated _ w | Undefined w => w
  end.

Definition ret {A} (a : A) : Run A := fun w => Returns a w.

Definition bind {A B} (k : A -> Run B) (m : Run A) : Run B :=
  fun w =>
    match m w with
    | Returns a w' => k a w'
    | Throws e w' => Throws e w'
    | Terminated message w' => Terminated message w'
    | Undefined w' => Undefined w'
    end.

#[global] Instance Run_ret : MRet Run := @ret.
#[global] Instance Run_bind : MBind Run := @bind.

Definition throw {A} (e : exception) : Run A := fun w => Throws e w.

(** [realm::util::terminate]: the process ends here. *)
Definition terminate {A} (message : string) : Run A :=
  fun w => Terminated message w.

(** A call into the engine. *)
Definition engine {A} (r : Exc A) : Run A :=
  match r with
  | Value a => ret a
  | Raise e => throw e
  end.

(** [try { body } catch ...]: [handlers] gives the handler that matches the
    exception, if one does. *)
Definition try_catch {A} (body : Run A)
    (handlers : exception -> option (Run A)) : Run A :=
  fun w =>
    match body w with
    | Throws e w' =>
        match handlers e with
        | Some handler => handler w'
        | None => Throws e w'
        end
    | o => o
    end.

Definition set_heap (h : gmap N Object) (w : World) : World :=
  {| heap := h; next_addr := next_addr w; calls := calls w;
     logged := logged w |}.

(** [new T(...)]: a fresh address, never null. *)
Definition new (o : Object) : Run N :=
  fun w =>
    Returns (N.pos (next_addr w))
      {| heap := <[N.pos (next_addr w) := o]> (heap w);
         next_addr := Pos.succ (next_addr w);
         calls := calls w;
         logged := logged w |}.

(** [delete p] for a pointer to an object accepted by [of_type]. *)
Definition cpp_delete (of_type : Object -> bool) (p : N) : Run unit :=
  fun w =>
    if p =? 0 then Returns tt w
    else
      match heap w !! p with
      | Some o =>
          if of_type o then Returns tt (set_heap (delete p (heap w)) w)
          else Undefined w
      | None => Undefined w
      end.

Definition record_call (c : Call) : Run unit :=
  fun w =>
    Returns tt
      {| heap := heap w; next_addr := next_addr w;
         calls := calls w ++ [c]; logged := logged w |}.

Definition log (level : LogLevel) (line : string) : Run unit :=
  fun w =>
    Returns tt
      {| heap := heap w; next_addr := next_addr w;
         calls := calls w; logged := logged w ++ [(level, line)] |}.

(** ** The installed callbacks *)

Section Wrapper.

(** What the managed admission predicate answers; it may depend on the
    calls the managed side has received so far. *)
Variable should_handle : list Call -> N -> string -> bool.

Definition s_should_handle_callback (managed_instance : N) (path : string)
    : Run bool :=
  fun w =>
    Returns (should_handle (calls w) managed_instance path)
      {| heap := heap w; next_addr := next_addr w;
         calls := calls w ++ [should_handle_call managed_instance path];
         logged := logged w |}.

Definition s_enqueue_calculation_callback (managed_instance : N)
    (path : string) (notification : N) : Run unit :=
  record_call (enqueue_calculation_call managed_instance path notification).

Definition s_start_callback (managed_instance : N) (error_code : Z)
    (message : option string) : Run unit :=
  record_call (start_call managed_instance error_code message).

Definition s_calculation_complete_callback
    (change : MarshaledChangeNotification) (managed_callback : N) : Run unit :=
  record_call (calculation_complete_call change managed_callback).

(** ** [class Callback] *)

Definition Callback_new (managed_instance : N) : Callback :=
  {| m_managed_instance := managed_instance; m_did_download := false |}.

Definition Callback_download_complete (this : Callback) : Run Callback :=
  let this :=
    {| m_managed_instance := m_managed_instance this;
       m_did_download := true |} in
  log level_trace "ManagedGlobalNotifier: download_complete()";;
  s_start_callback (m_managed_instance this) 0%Z None;;
  mret this.

Definition Callback_error (this : Callback) (error : exception)
    : Run Callback :=
  log level_trace "ManagedGlobalNotifier: error()";;
  if negb (m_did_download this) then
    try_catch (throw error)
      (fun e =>
         match e with
         | system_error value message =>
             Some (s_start_callback (m_managed_instance this) value
                     (Some message))
         | std_exception what =>
             Some (log level_fatal
                     ("ManagedGlobalNotifier fatal error: " +:+ what);;
                   terminate "Unhandled GlobalNotifier exception type")
         | foreign_exception _ => None
         end);;
    mret this
  else terminate "Unhandled GlobalNotifier runtime error".

Definition Callback_realm_available (this : Callback)
    (path virtual_path : string) : Run bool :=
  log level_trace
    ("ManagedGlobalNotifier: realm_available(" +:+ virtual_path +:+ ")");;
  s_should_handle_callback (m_managed_instance this) virtual_path.

(** Modelled from the spec: [GlobalNotifier::next_changed_realm], which
    "pops one ready notification from an internal FIFO queue, or returns
    empty if none pending". *)
Definition next_changed_realm (notifier : GlobalNotifier)
    : option ChangeNotification * GlobalNotifier :=
  match ready notifier with
  | [] => (None, notifier)
  | change :: rest =>
      (Some change,
       {| target := target notifier; working_dir := working_dir notifier;
          sync_config := sync_config notifier;
          listening := listening notifier; ready := rest |})
  end.

(** The [while] loop of [Callback::realm_changed]; [None] when [fuel] runs
    out before the engine reports an empty queue. *)
Fixpoint realm_changed_loop (fuel : nat) (this : Callback)
    (notifier : GlobalNotifier) : Run (option GlobalNotifier) :=
  match fuel with
  | O => mret None
  | S fuel' =>
      match next_changed_realm notifier with
      | (Some change, notifier') =>
          p ← new (NotificationObject change);
          s_enqueue_calculation_callback (m_managed_instance this)
            (realm_path change) p;;
          realm_changed_loop fuel' this notifier'
      | (None, notifier') => mret (Some notifier')
      end
  end.

Definition Callback_realm_changed (fuel : nat) (this : Callback)
    (notifier : GlobalNotifier) : Run (option GlobalNotifier) :=
  log level_trace "ManagedGlobalNotifier: realm_changed()";;
  realm_changed_loop fuel this notifier.


(** ** The engine driving its callback target *)

(** What the engine does to a notifier and its target: the four virtual
    hooks of [GlobalNotifier::Callback], and a commit that makes a
    notification ready. *)
Inductive Signal : Type :=
| sig_download_complete
| sig_error (e : exception)
| sig_realm_available (path virtual_path : string)
| sig_commit (change : ChangeNotification)
| sig_realm_changed.

Definition set_target (notifier : GlobalNotifier) (callback : Callback)
    : GlobalNotifier :=
  {| target := callback; working_dir := working_dir notifier;
     sync_config := sync_config notifier;
     listening := listening notifier; ready := ready notifier |}.

(** Modelled from the spec: a commit on an admitted store puts one
    notification at the back of the ready queue. *)
Definition push_ready (change : ChangeNotification)
    (notifier : GlobalNotifier) : GlobalNotifier :=
  {| target := target notifier; working_dir := working_dir notifier;
     sync_config := sync_config notifier;
     listening := listening notifier;
     ready := ready notifier ++ [change] |}.

(** Modelled from the spec: the engine invoking one hook of its target.  A
    drain pass gets one unit of fuel more than there are ready
    notifications. *)
Definition deliver (notifier : GlobalNotifier) (s : Signal)
    : Run GlobalNotifier :=
  match s with
  | sig_download_complete =>
      callback ← Callback_download_complete (target notifier);
      mret (set_target notifier callback)
  | sig_error e =>
      callback ← Callback_error (target notifier) e;
      mret (set_target notifier callback)
  | sig_realm_available path virtual_path =>
      Callback_realm_available (target notifier) path virtual_path;;
      mret notifier
  | sig_commit change => mret (push_ready change notifier)
  | sig_realm_changed =>
      drained ← Callback_realm_changed (S (length (ready notifier)))
                  (target notifier) notifier;
      mret (default notifier drained)
  end.

(** An execution: the hooks invoked one after the other, until one of them
    does not return. *)
Fixpoint run (notifier : GlobalNotifier) (signals : list Signal)
    : Run GlobalNotifier :=
  match signals with
  | [] => mret notifier
  | s :: rest => notifier' ← deliver notifier s; run notifier' rest
  end.

(** ** The exported functions *)

(** [NativeException::Marshallable], the error result of an exported
    function. *)
Inductive Marshallable : Type :=
| NoError
| NativeException (code : Z) (message : string).

(** The code and message [error_handling.hpp] gives an exception. *)
Variable convert_exception : exception -> Z * string.

(** Modelled from the spec: [handle_errors] of [error_handling.hpp] (not
    part of the sources).  Exceptions "are caught at the boundary and
    converted to a structured error result"; the function then returns the
    default value of its result type. *)
Definition for_marshalling (e : exception) : Marshallable :=
  NativeException (fst (convert_exception e)) (snd (convert_exception e)).

Definition handle_errors {A} (default_value : A) (func : Run A)
    : Run (A * Marshallable) :=
  fun w =>
    match func w with
    | Returns a w' => Returns (a, NoError) w'
    | Throws e w' => Returns (default_value, for_marshalling e) w'
    | Terminated message w' => Terminated message w'
    | Undefined w' => Undefined w'
    end.

(** [Utf16StringAccessor] of [marshalling.hpp]: the UTF-8 string of a
    UTF-16 buffer, or the exception the conversion throws. *)
Variable Utf16StringAccessor : list N -> Exc string.

(** The configuration error, if any, that the engine finds when a notifier
    is constructed. *)
Variable configuration_error : string -> SyncConfig -> option exception.

(** Modelled from the spec: the constructor of [GlobalNotifier], which
    "establishes a watcher" and "fails only on configuration errors". *)
Definition GlobalNotifier_new (callback : Callback) (working_dir : string)
    (config : SyncConfig) : Run GlobalNotifier :=
  match configuration_error working_dir config with
  | Some e => throw e
  | None =>
      mret {| target := callback; working_dir := working_dir;
              sync_config := config; listening := false; ready := [] |}
  end.

(** Modelled from the spec: [GlobalNotifier::start], which "begins actively
    listening". *)
Definition GlobalNotifier_start (notifier : GlobalNotifier)
    : Run GlobalNotifier :=
  mret {| target := target notifier; working_dir := working_dir notifier;
          sync_config := sync_config notifier;
          listening := true; ready := ready notifier |}.

Definition realm_server_create_global_notifier (managed_instance : N)
    (configuration : SyncConfiguration) (encryption_key : N)
    : Run (N * Marshallable) :=
  handle_errors 0
    (realm_url ← engine (Utf16StringAccessor (url configuration));
     trusted_ca ← engine
       (Utf16StringAccessor (trusted_ca_path configuration));
     let config :=
       {| config_user := user configuration;
          config_realm_url := realm_url;
          config_bind_session_handler := bind_session;
          config_error_handler := handle_session_error;
          config_stop_policy := Immediately;
          config_client_validate_ssl := client_validate_ssl configuration;
          config_ssl_trust_certificate_path := trusted_ca |} in
     working_dir ← engine
       (Utf16StringAccessor (partial_sync_identifier configuration));
     let callback := Callback_new managed_instance in
     notifier ← GlobalNotifier_new callback working_dir config;
     notifier ← GlobalNotifier_start notifier;
     new (NotifierHandle notifier)).

Definition is_NotifierHandle (o : Object) : bool :=
  match o with NotifierHandle _ => true | _ => false end.

Definition is_NotificationObject (o : Object) : bool :=
  match o with NotificationObject _ => true | _ => false end.

Definition realm_server_global_notifier_destroy (notifier : N) : Run unit :=
  cpp_delete is_NotifierHandle notifier.

(** One iteration of the loop over [changes]. *)
Definition marshal_changeset (changeset : string * CollectionChangeSet)
    : MarshaledChangeSet :=
  {| class_name := fst changeset;
     deletions := get_indexes_vector (cs_deletions (snd changeset));
     insertions := get_indexes_vector (cs_insertions (snd changeset));
     previous_modifications :=
       get_indexes_vector (cs_modifications (snd changeset));
     current_modifications :=
       get_indexes_vector (cs_modifications_new (snd changeset)) |}.

Definition realm_server_global_notifier_notification_get_changes
    (change : ChangeNotification) (managed_callback : N)
    : Run (unit * Marshallable) :=
  handle_errors tt
    (changes ← engine (get_changes change);
     let changesets := map marshal_changeset changes in
     old_realm ← engine (get_old_realm change);
     previous ← match old_realm with
                | Some _ => new (SharedRealmObject old_realm)
                | None => mret 0
                end;
     newRealm ← engine (get_new_realm change);
     current ← new (SharedRealmObject (Some newRealm));
     s_calculation_complete_callback
       {| path := realm_path change;
          path_on_disk := config_path newRealm;
          previous := previous;
          current := current;
          changesets := changesets |}
       managed_callback).

Definition realm_server_global_notifier_notification_destroy
    (notification : N) : Run unit :=
  cpp_delete is_NotificationObject notification.

(** [Realm::get_shared_realm] of the engine: the realm it opens for a
    configuration, or the exception it throws. *)
Variable get_shared_realm : RealmConfig -> Exc Realm.

(** [current_realm] is a [SharedRealm&]; going through it when it is empty
    is undefined behaviour. *)
Definition realm_server_global_notifier_get_realm_for_writing
    (current_realm : SharedRealm) : Run (N * Marshallable) :=
  handle_errors 0
    (match current_realm with
     | None => fun w => Undefined w
     | Some realm =>
         let config :=
           {| realm_config_path := config_path realm;
              realm_config_cache := true |} in
         opened ← engine (get_shared_realm config);
         new (SharedRealmObject (Some opened))
     end).

End Wrapper.

(** The managed side releasing the notification handles it was given, one
    call of [realm_server_global_notifier_notification_destroy] each. *)
Fixpoint destroy_notifications (handles : list N) : Run unit :=
  match handles with
  | [] => mret tt
  | handle :: rest =>
      realm_server_global_notifier_notification_destroy handle;;
      destroy_notifications rest
  end.

(** ** Observations on an execution *)

(** The calls made since the world [w]. *)
Definition new_calls {A} (w : World) (o : Outcome A) : list Call :=
  drop (length (calls w)) (calls (final_world o)).

Definition is_start_call (c : Call) : bool :=
  match c with start_call _ _ _ => true | _ => false end.

Definition is_enqueue_calculation_call (c : Call) : bool :=
  match c with enqueue_calculation_call _ _ _ => true | _ => false end.

(** The invocations of the lifecycle start/error callback among [cs]. *)
Definition lifecycle_calls (cs : list Call) : list Call :=
  List.filter is_start_call cs.

Definition enqueue_calls (cs : list Call) : list Call :=
  List.filter is_enqueue_calculation_call cs.




Definition is_download_complete (s : Signal) : bool :=
  match s with sig_download_complete => true | _ => false end.

(** The notifications the engine made ready, in commit order. *)
Fixpoint commits (signals : list Signal) : list ChangeNotification :=
  match signals with
  | [] => []
  | sig_commit change :: rest => change :: commits rest
  | _ :: rest => commits rest
  end.

Definition for_store (store : string) (changes : list ChangeNotification)
    : list ChangeNotification :=
  List.filter (fun change => String.eqb (realm_path change) store) changes.

(** [call] hands the notification [change], owned by the heap of [w], to
    the enqueue-for-calculation callback of [managed_instance]. *)
Definition hands_over (managed_instance : N) (w : World) (call : Call)
    (change : ChangeNotification) : Prop :=
  exists p,
    call = enqueue_calculation_call managed_instance (realm_path change) p
    /\ heap w !! p = Some (NotificationObject change)
    /\ p <> 0
    /\ p < N.pos (next_addr w).

(** From [w] to [w'] nothing that [new] had created was touched. *)
Definition heap_grows (w w' : World) : Prop :=
  Pos.le (next_addr w) (next_addr w')
  /\ forall p, p < N.pos (next_addr w) -> heap w' !! p = heap w !! p.

Definition call_for_store (store : string) (c : Call) : bool :=
  match c with
  | enqueue_calculation_call _ path _ => String.eqb path store
  | _ => false
  end.

Definition ascending (indexes : list N) : Prop :=
  StronglySorted N.lt indexes.

Definition changeset_wf (changeset : CollectionChangeSet) : bool :=
  IndexSet_wf (cs_deletions changeset)
  && IndexSet_wf (cs_insertions changeset)
  && IndexSet_wf (cs_modifications changeset)
  && IndexSet_wf (cs_modifications_new changeset).

(** Every index set the engine reports for [change] satisfies the class
    invariant. *)
Definition changes_wf (change : ChangeNotification) : bool :=
  match get_changes change with
  | Value changes => forallb (fun c => changeset_wf (snd c)) changes
  | Raise _ => true
  end.

Definition ascending_no_duplicates (indexes : list N) : Prop :=
  ascending indexes /\ List.NoDup indexes.

(** The four index arrays of a delivered changeset are strictly ascending
    and free of duplicates. *)
Definition changeset_ascending (c : MarshaledChangeSet) : Prop :=
  ascending_no_duplicates (deletions c)
  /\ ascending_no_duplicates (insertions c)
  /\ ascending_no_duplicates (previous_modifications c)
  /\ ascending_no_duplicates (current_modifications c).

(** The changesets delivered by the calculation-complete calls of [cs]. *)
Fixpoint delivered_changesets (cs : list Call)
    : list (list MarshaledChangeSet) :=
  match cs with
  | [] => []
  | calculation_complete_call change _ :: rest =>
      changesets change :: delivered_changesets rest
  | _ :: rest => delivered_changesets rest
  end.

(** The world after the loop of [realm_changed] has gone through [changes]:
    one [new] and one call of the enqueue callback for each. *)
Fixpoint drained_world (managed_instance : N)
    (changes : list ChangeNotification) (w : World) : World :=
  match changes with
  | [] => w
  | change :: rest =>
      drained_world managed_instance rest
        {| heap := <[N.pos (next_addr w) := NotificationObject change]>
                     (heap w);
           next_addr := Pos.succ (next_addr w);
           calls := calls w ++
             [enqueue_calculation_call managed_instance (realm_path change)
                (N.pos (next_addr w))];
           logged := logged w |}
  end.

Definition set_ready (notifier : GlobalNotifier)
    (changes : list ChangeNotification) : GlobalNotifier :=
  {| target := target notifier; working_dir := working_dir notifier;
     sync_config := sync_config notifier;
     listening := listening notifier; ready := changes |}.

(** The lifecycle calls one hook makes, by the words of the callback: a
    [download_complete] reports code 0 without a message, a
    [std::system_error] before any download reports its code and message,
    and nothing else reports anything. *)
Definition start_calls_of (managed_instance : N) (did_download : bool)
    (s : Signal) : list Call :=
  match s with
  | sig_download_complete => [start_call managed_instance 0 None]
  | sig_error (system_error value message) =>
      if did_download then []
      else [start_call managed_instance value (Some message)]
  | _ => []
  end.


(** The allocator invariant: every live object sits at a non-null address
    below the next one [new] will give out. *)
Definition heap_wf (w : World) : Prop :=
  forall p, is_Some (heap w !! p) -> p <> 0 /\ p < N.pos (next_addr w).

(** The handles passed to the enqueue callback by the calls [cs]. *)
Fixpoint enqueued_handles (cs : list Call) : list N :=
  match cs with
  | [] => []
  | enqueue_calculation_call _ _ p :: rest => p :: enqueued_handles rest
  | _ :: rest => enqueued_handles rest
  end.

(** The addresses [first], [first + 1], ..., [first + count - 1]. *)
Definition handles_from (first : N) (count : nat) : list N :=
  map (fun i => first + N.of_nat i) (seq 0 count).

(** [c] is a call of one of the three callbacks of the [Callback] class,
    made for [managed_instance]. *)
Definition call_from (managed_instance : N) (c : Call) : bool :=
  match c with
  | should_handle_call i _ => i =? managed_instance
  | enqueue_calculation_call i _ _ => i =? managed_instance
  | start_call i _ _ => i =? managed_instance
  | calculation_complete_call _ _ => false
  end.

Definition is_should_handle_call (c : Call) : bool :=
  match c with should_handle_call _ _ => true | _ => false end.

(** The calls of the admission predicate that the signals ask for. *)
Fixpoint admission_calls (managed_instance : N) (signals : list Signal)
    : list Call :=
  match signals with
  | [] => []
  | sig_realm_available _ virtual_path :: rest =>
      should_handle_call managed_instance virtual_path
      :: admission_calls managed_instance rest
  | _ :: rest => admission_calls managed_instance rest
  end.

Definition is_system_error (e : exception) : bool :=
  match e with system_error _ _ => true | _ => false end.

(** [x] lies in one of the ranges of [s]. *)
Definition IndexSet_contains (x : N) (s : IndexSet) : bool :=
  existsb (fun r => (fst r <=? x) && (x <? snd r)) s.

(** The marshalled changeset [m] carries the name and, array by array, the
    positions of the engine's changeset [c]. *)
Definition same_changes (c : string * CollectionChangeSet)
    (m : MarshaledChangeSet) : Prop :=
  class_name m = fst c
  /\ (forall x, In x (deletions m) <->
                IndexSet_contains x (cs_deletions (snd c)) = true)
  /\ (forall x, In x (insertions m) <->
                IndexSet_contains x (cs_insertions (snd c)) = true)
  /\ (forall x, In x (previous_modifications m) <->
                IndexSet_contains x (cs_modifications (snd c)) = true)
  /\ (forall x, In x (current_modifications m) <->
                IndexSet_contains x (cs_modifications_new (snd c)) = true).

(** ** Sample data *)

Definition empty_world : World :=
  {| heap := ∅; next_addr := 1%positive; calls := []; logged := [] |}.


Definition sample_convert_exception (e : exception) : Z * string :=
  match e with
  | system_error code message => (code, message)
  | std_exception what => (1000%Z, what)
  | foreign_exception _ => (1001%Z, "unknown")
  end.

(** A conversion that accepts the ASCII code units only. *)
Fixpoint sample_Utf16StringAccessor (units : list N) : Exc string :=
  match units with
  | [] => Value ""
  | u :: rest =>
      if u <? 128 then
        match sample_Utf16StringAccessor rest with
        | Value s => Value (String (Ascii.ascii_of_N u) s)
        | Raise e => Raise e
        end
      else Raise (std_exception "invalid UTF-16")
  end.

Definition sample_configuration_error (_ : string) (_ : SyncConfig)
    : option exception := None.

Definition sample_configuration : SyncConfiguration :=
  {| user := 7; url := [114; 101; 97; 108; 109];
     client_validate_ssl := true; trusted_ca_path := [];
     partial_sync_identifier := [47; 116; 109; 112] |}.

Definition sample_notifier : GlobalNotifier :=
  {| target := Callback_new 42; working_dir := "/tmp";
     sync_config :=
       {| config_user := 7; config_realm_url := "realm";
          config_bind_session_handler := bind_session;
          config_error_handler := handle_session_error;
          config_stop_policy := Immediately;
          config_client_validate_ssl := true;
          config_ssl_trust_certificate_path := "" |};
     listening := true; ready := [] |}.

Definition sample_changeset : CollectionChangeSet :=
  {| cs_deletions := IndexSet_of_positions [1];
     cs_insertions := IndexSet_of_positions [2];
     cs_modifications := IndexSet_of_positions [2; 5; 5; 7];
     cs_modifications_new := IndexSet_of_positions [7; 3; 4] |}.

Definition sample_change (store : string) (old_realm : SharedRealm)
    : ChangeNotification :=
  {| realm_path := store;
     get_changes := Value [("Person", sample_changeset)];
     get_old_realm := Value old_realm;
     get_new_realm := Value {| config_path := "/tmp" +:+ store;
                               version := 2 |} |}.

(** A world in which a notifier handle lives at address 1 and a
    notification at address 2. *)
Definition sample_live_world : World :=
  {| heap :=
       <[1 := NotifierHandle sample_notifier]>
         (<[2 := NotificationObject (sample_change "/a" None)]> ∅);
     next_addr := 3%positive; calls := []; logged := [] |}.

(** The rows A, B, C and A, C, D of the coordinate-space scenario. *)
Definition sample_previous_snapshot : Snapshot :=
  {| snapshot_realm := {| config_path := "/tmp/a"; version := 1 |};
     collections :=
       [("Person",
         [{| row_identity := 10; row_content := 1 |};
          {| row_identity := 11; row_content := 1 |};
          {| row_identity := 12; row_content := 1 |}])] |}.

Definition sample_current_snapshot : Snapshot :=
  {| snapshot_realm := {| config_path := "/tmp/a"; version := 2 |};
     collections :=
       [("Person",
         [{| row_identity := 10; row_content := 1 |};
          {| row_identity := 12; row_content := 1 |};
          {| row_identity := 13; row_content := 1 |}])] |}.



(** A notifier with two notifications ready, for two stores. *)
Definition sample_ready_notifier : GlobalNotifier :=
  {| target := Callback_new 42; working_dir := "/tmp";
     sync_config := sync_config sample_notifier;
     listening := true;
     ready := [sample_change "/a" None;
               sample_change "/b"
                 (Some {| config_path := "/tmp/b"; version := 1 |})] |}.

(** An engine that opens the realm at the path it is given, and finds no
    realm at the empty path. *)
Definition sample_get_shared_realm (config : RealmConfig) : Exc Realm :=
  if String.eqb (realm_config_path config) "" then
    Raise (std_exception "no such realm")
  else Value {| config_path := realm_config_path config; version := 3 |}.

(** * Properties *)

(** ** Index sets *)

Section IndexSets.

Lemma ranges_from_cons (lo first second : N) (rest : IndexSet) :
  ranges_from lo ((first, second) :: rest) = true <->
  lo <= first /\ first < second /\ ranges_from (second + 1) rest = true.
Proof.
  simpl. rewrite !andb_true_iff, N.leb_le, N.ltb_lt. tauto.
Qed.

Lemma ranges_from_weaken (s : IndexSet) (lo lo' : N) :
  lo' <= lo -> ranges_from lo s = true -> ranges_from lo' s = true.
Proof.
  destruct s as [|[first second] rest]; [reflexivity|].
  intros Hle H. apply ranges_from_cons in H as (Hlo & Hne & Hrest).
  apply ranges_from_cons. repeat split; [lia | exact Hne | exact Hrest].
Qed.

(** Adding a position keeps the class invariant. *)
Lemma IndexSet_add_ranges_from (index : N) (s : IndexSet) :
  forall lo, lo <= index -> ranges_from lo s = true ->
    ranges_from lo (IndexSet_add index s) = true.
Proof.
  induction s as [|[first second] rest IH]; intros lo Hlo Hs.
  - simpl. rewrite andb_true_r, andb_true_iff, N.leb_le, N.ltb_lt. lia.
  - apply ranges_from_cons in Hs as (Hfirst & Hne & Hrest).
    cbn [IndexSet_add].
    destruct (N.ltb_spec (index + 1) first).
    { apply ranges_from_cons. repeat split; try lia.
      apply ranges_from_cons. repeat split; try lia. exact Hrest. }
    destruct (N.eqb_spec (index + 1) first).
    { apply ranges_from_cons. repeat split; try lia. exact Hrest. }
    destruct (N.ltb_spec index second).
    { apply ranges_from_cons. repeat split; try lia. exact Hrest. }
    destruct (N.eqb_spec index second) as [->|Hne2].
    + destruct rest as [|[first' second'] rest'].
      * apply ranges_from_cons. repeat split; lia.
      * apply ranges_from_cons in Hrest as (Hf' & Hne' & Hrest').
        destruct (N.eqb_spec (second + 1) first').
        -- apply ranges_from_cons. repeat split; try lia. exact Hrest'.
        -- apply ranges_from_cons. repeat split; try lia.
           apply ranges_from_cons. repeat split; try lia. exact Hrest'.
    + apply ranges_from_cons. repeat split; try lia.
      apply IH; [lia | exact Hrest].
Qed.

Lemma IndexSet_add_wf (index : N) (s : IndexSet) :
  IndexSet_wf s = true -> IndexSet_wf (IndexSet_add index s) = true.
Proof. apply IndexSet_add_ranges_from. lia. Qed.

Lemma IndexSet_of_positions_wf (positions : list N) :
  IndexSet_wf (IndexSet_of_positions positions) = true.
Proof.
  unfold IndexSet_of_positions.
  assert (H : IndexSet_wf [] = true) by reflexivity.
  revert H. generalize (@nil (N * N)).
  induction positions as [|index positions IH]; intros s Hs; simpl.
  - exact Hs.
  - apply IH, IndexSet_add_wf, Hs.
Qed.

Lemma In_range_indexes (x first count : N) :
  In x (range_indexes first count) <-> first <= x < first + count.
Proof.
  unfold range_indexes. rewrite in_map_iff. split.
  - intros (n & <- & Hn). apply in_seq in Hn. lia.
  - intros H. exists (N.to_nat x). split; [apply N2Nat.id|].
    apply in_seq. lia.
Qed.

Lemma range_indexes_ascending (first count : N) :
  ascending (range_indexes first count).
Proof.
  unfold range_indexes, ascending.
  generalize (N.to_nat first) as a, (N.to_nat count) as c.
  intros a c. revert a.
  induction c as [|c IH]; intros a; simpl; constructor.
  - apply IH.
  - apply List.Forall_forall. intros x Hx.
    apply in_map_iff in Hx as (n & <- & Hn). apply in_seq in Hn. lia.
Qed.

Lemma ascending_app (l1 l2 : list N) :
  ascending l1 -> ascending l2 ->
  (forall x y, In x l1 -> In y l2 -> x < y) ->
  ascending (l1 ++ l2).
Proof.
  unfold ascending. intros H1 H2 H12.
  induction H1 as [|a l1 Hl1 IH Ha]; simpl; [exact H2|].
  constructor.
  - apply IH. intros x y Hx Hy. apply H12; [right; exact Hx | exact Hy].
  - apply List.Forall_app. split; [exact Ha|].
    apply List.Forall_forall. intros y Hy. apply H12; [left; reflexivity | exact Hy].
Qed.

Lemma In_as_indexes (x : N) (s : IndexSet) :
  In x (as_indexes s) <->
  exists r, In r s /\ fst r <= x < fst r + (snd r - fst r).
Proof.
  unfold as_indexes. rewrite in_flat_map.
  split; intros (r & Hr & Hx); exists r; split; try exact Hr;
    apply In_range_indexes; exact Hx.
Qed.

Lemma as_indexes_lower_bound (s : IndexSet) :
  forall lo x, ranges_from lo s = true -> In x (as_indexes s) -> lo <= x.
Proof.
  induction s as [|[first second] rest IH]; intros lo x Hs Hx.
  - destruct Hx.
  - apply ranges_from_cons in Hs as (Hfirst & Hne & Hrest).
    simpl in Hx. apply in_app_or in Hx as [Hx|Hx].
    + apply In_range_indexes in Hx. lia.
    + specialize (IH _ _ Hrest Hx). lia.
Qed.

(** The positions of a set that satisfies the class invariant come out
    strictly ascending. *)
Lemma as_indexes_ascending (s : IndexSet) :
  forall lo, ranges_from lo s = true -> ascending (as_indexes s).
Proof.
  induction s as [|[first second] rest IH]; intros lo Hs.
  - constructor.
  - apply ranges_from_cons in Hs as (Hfirst & Hne & Hrest).
    simpl. apply ascending_app.
    + apply range_indexes_ascending.
    + apply (IH _ Hrest).
    + intros x y Hx Hy. apply In_range_indexes in Hx.
      pose proof (as_indexes_lower_bound _ _ _ Hrest Hy). lia.
Qed.

Lemma get_indexes_vector_ascending (s : IndexSet) :
  IndexSet_wf s = true -> ascending (get_indexes_vector s).
Proof. apply as_indexes_ascending. Qed.

Lemma ascending_NoDup (l : list N) : ascending l -> List.NoDup l.
Proof.
  induction 1 as [|a l Hl IH Ha]; constructor; [|exact IH].
  intros Hin. rewrite List.Forall_forall in Ha. specialize (Ha _ Hin). lia.
Qed.

Lemma In_as_indexes_cons (x first second : N) (rest : IndexSet) :
  In x (as_indexes ((first, second) :: rest)) <->
  first <= x < second \/ In x (as_indexes rest).
Proof.
  change (as_indexes ((first, second) :: rest))
    with (range_indexes first (second - first) ++ as_indexes rest).
  rewrite in_app_iff, In_range_indexes. split; (intros [H|H]; [left; lia | right; exact H]).
Qed.

(** Adding a position adds that position and nothing else. *)
Lemma In_as_indexes_add (index x : N) (s : IndexSet) :
  forall lo, ranges_from lo s = true ->
    In x (as_indexes (IndexSet_add index s)) <->
    x = index \/ In x (as_indexes s).
Proof.
  induction s as [|[first second] rest IH]; intros lo Hs.
  - cbn [IndexSet_add]. rewrite In_as_indexes_cons. simpl. lia.
  - apply ranges_from_cons in Hs as (Hfirst & Hne & Hrest).
    cbn [IndexSet_add].
    destruct (N.ltb_spec (index + 1) first).
    { rewrite !In_as_indexes_cons. intuition lia. }
    destruct (N.eqb_spec (index + 1) first).
    { rewrite !In_as_indexes_cons. intuition lia. }
    destruct (N.ltb_spec index second).
    { rewrite !In_as_indexes_cons. intuition lia. }
    destruct (N.eqb_spec index second) as [->|Hne2].
    + destruct rest as [|[first' second'] rest'].
      * rewrite !In_as_indexes_cons. simpl. lia.
      * apply ranges_from_cons in Hrest as (Hf' & Hne' & Hrest').
        destruct (N.eqb_spec (second + 1) first');
          rewrite !In_as_indexes_cons; intuition lia.
    + rewrite !In_as_indexes_cons, (IH _ Hrest). intuition lia.
Qed.

(** Flattening the set built from a list of positions gives exactly the
    positions of the list. *)
Lemma In_get_indexes_vector_of_positions (positions : list N) (x : N) :
  In x (get_indexes_vector (IndexSet_of_positions positions)) <->
  In x positions.
Proof.
  unfold get_indexes_vector, IndexSet_of_positions.
  assert (H : IndexSet_wf [] = true) by reflexivity.
  transitivity (In x (as_indexes []) \/ In x positions); [|simpl; tauto].
  revert H. generalize (@nil (N * N)).
  induction positions as [|index positions IH]; intros s Hs; simpl.
  - tauto.
  - rewrite (IH _ (IndexSet_add_wf index s Hs)).
    rewrite (In_as_indexes_add index x s 0 Hs). intuition auto.
Qed.

End IndexSets.

(** ** The callback bridge *)

Section Properties.

Variable should_handle : list Call -> N -> string -> bool.
Variable convert_exception : exception -> Z * string.
Variable Utf16StringAccessor : list N -> Exc string.
Variable configuration_error : string -> SyncConfig -> option exception.

Ltac unfold_run :=
  unfold mbind, mret, Run_bind, Run_ret, bind, ret, throw, terminate,
    try_catch, engine, for_marshalling, s_enqueue_calculation_callback,
    s_start_callback,
    s_calculation_complete_callback, s_should_handle_callback, record_call,
    log, new, handle_errors in *.

Lemma new_calls_app {A} (w : World) (o : Outcome A) (cs : list Call) :
  calls (final_world o) = calls w ++ cs -> new_calls w o = cs.
Proof. unfold new_calls. intros ->. apply drop_app_length. Qed.

Lemma new_calls_Returns {A} (w w' : World) (a : A) (cs : list Call) :
  calls w' = calls w ++ cs -> new_calls w (Returns a w') = cs.
Proof. apply (new_calls_app w (Returns a w')). Qed.

Lemma new_calls_unchanged {A} (w w' : World) (a : A) :
  calls w' = calls w -> new_calls w (Returns a w') = [].
Proof.
  intros H. apply (new_calls_app w (Returns a w')). simpl.
  rewrite app_nil_r. exact H.
Qed.

(** *** Admission *)

(** C4: for a store reported as available, the admission predicate is
    called once, with the instance of the callback object and the virtual
    (logical) path; its answer is returned as it is; the path on disk,
    the first argument, has no influence on the call or on the result. *)
Theorem realm_available_asks_virtual_path
    (this : Callback) (path virtual_path : string) (w : World) :
  Callback_realm_available should_handle this path virtual_path w =
    Returns (should_handle (calls w) (m_managed_instance this) virtual_path)
      {| heap := heap w; next_addr := next_addr w;
         calls := calls w ++
           [should_handle_call (m_managed_instance this) virtual_path];
         logged := logged w ++
           [(level_trace,
             "ManagedGlobalNotifier: realm_available(" +:+ virtual_path
               +:+ ")")] |}
  /\ forall path',
       Callback_realm_available should_handle this path' virtual_path w =
       Callback_realm_available should_handle this path virtual_path w.
Proof. split; [reflexivity | intros path'; reflexivity]. Qed.

(** *** The drain loop *)

Lemma set_ready_id (notifier : GlobalNotifier) :
  set_ready notifier (ready notifier) = notifier.
Proof. destruct notifier; reflexivity. Qed.

(** With more fuel than there are ready notifications the loop ends because
    the queue is empty, having gone through all of them. *)
Lemma realm_changed_loop_drains (this : Callback) :
  forall (fuel : nat) (notifier : GlobalNotifier) (w : World),
    (length (ready notifier) < fuel)%nat ->
    realm_changed_loop fuel this notifier w =
      Returns (Some (set_ready notifier []))
        (drained_world (m_managed_instance this) (ready notifier) w).
Proof.
  induction fuel as [|fuel IH]; intros notifier w Hfuel; [lia|].
  destruct notifier as [tg wd sc li rd]. simpl in Hfuel.
  destruct rd as [|change rest].
  - reflexivity.
  - cbn [realm_changed_loop next_changed_realm ready]. unfold_run. simpl.
    rewrite IH by (simpl in *; lia). reflexivity.
Qed.

Lemma heap_grows_refl (w : World) : heap_grows w w.
Proof. split; [lia | reflexivity]. Qed.

Lemma heap_grows_trans (w1 w2 w3 : World) :
  heap_grows w1 w2 -> heap_grows w2 w3 -> heap_grows w1 w3.
Proof.
  intros [Hn12 Hh12] [Hn23 Hh23]. split; [lia|].
  intros p Hp. rewrite Hh23 by lia. apply Hh12, Hp.
Qed.

Lemma hands_over_grows (managed_instance : N) (w w' : World) (call : Call)
    (change : ChangeNotification) :
  heap_grows w w' ->
  hands_over managed_instance w call change ->
  hands_over managed_instance w' call change.
Proof.
  intros [Hnext Hheap] (p & Hcall & Hp & Hnull & Hlt).
  exists p. repeat split; [exact Hcall | | exact Hnull | lia].
  rewrite Hheap by exact Hlt. exact Hp.
Qed.

Lemma drained_world_calls (managed_instance : N) :
  forall (changes : list ChangeNotification) (w : World),
    exists cs,
      calls (drained_world managed_instance changes w) = calls w ++ cs
      /\ Forall2
           (hands_over managed_instance
              (drained_world managed_instance changes w))
           cs changes
      /\ lifecycle_calls cs = []
      /\ enqueue_calls cs = cs
      /\ heap_grows w (drained_world managed_instance changes w).
Proof.
  induction changes as [|change rest IH]; intros w.
  - exists []. simpl. rewrite app_nil_r.
    repeat split; [constructor | lia].
  - simpl.
    destruct (IH {| heap := <[N.pos (next_addr w) := NotificationObject change]>
                              (heap w);
                    next_addr := Pos.succ (next_addr w);
                    calls := calls w ++
                      [enqueue_calculation_call managed_instance
                         (realm_path change) (N.pos (next_addr w))];
                    logged := logged w |})
      as (cs & Hcalls & Hhands & Hlife & Henq & Hnext & Hheap).
    simpl in Hcalls, Hnext, Hheap.
    exists (enqueue_calculation_call managed_instance (realm_path change)
              (N.pos (next_addr w)) :: cs).
    repeat split.
    + rewrite Hcalls, <- app_assoc. reflexivity.
    + constructor; [|exact Hhands].
      exists (N.pos (next_addr w)). repeat split; [| lia | lia].
      rewrite Hheap by lia. apply lookup_insert_eq.
    + simpl. exact Hlife.
    + simpl. rewrite Henq. reflexivity.
    + lia.
    + intros p Hp. rewrite Hheap by lia. apply lookup_insert_ne. lia.
Qed.

(** *** The lifecycle hooks *)

Lemma Callback_download_complete_spec (this : Callback) (w : World) :
  Callback_download_complete this w =
    Returns {| m_managed_instance := m_managed_instance this;
               m_did_download := true |}
      {| heap := heap w; next_addr := next_addr w;
         calls := calls w ++ [start_call (m_managed_instance this) 0 None];
         logged := logged w ++
           [(level_trace, "ManagedGlobalNotifier: download_complete()")] |}.
Proof. reflexivity. Qed.

Lemma Callback_error_after_download (this : Callback) (e : exception)
    (w : World) :
  m_did_download this = true ->
  Callback_error this e w =
    Terminated "Unhandled GlobalNotifier runtime error"
      {| heap := heap w; next_addr := next_addr w; calls := calls w;
         logged := logged w ++
           [(level_trace, "ManagedGlobalNotifier: error()")] |}.
Proof. intros H. unfold Callback_error. rewrite H. reflexivity. Qed.

Lemma Callback_error_before_download (this : Callback) (e : exception)
    (w : World) :
  m_did_download this = false ->
  Callback_error this e w =
    let w1 :=
      {| heap := heap w; next_addr := next_addr w; calls := calls w;
         logged := logged w ++
           [(level_trace, "ManagedGlobalNotifier: error()")] |} in
    match e with
    | system_error value message =>
        Returns this
          {| heap := heap w; next_addr := next_addr w;
             calls := calls w ++
               [start_call (m_managed_instance this) value (Some message)];
             logged := logged w1 |}
    | std_exception what =>
        Terminated "Unhandled GlobalNotifier exception type"
          {| heap := heap w; next_addr := next_addr w; calls := calls w;
             logged := logged w1 ++
               [(level_fatal,
                 "ManagedGlobalNotifier fatal error: " +:+ what)] |}
    | foreign_exception _ => Throws e w1
    end.
Proof.
  intros H. unfold Callback_error. rewrite H. destruct e; reflexivity.
Qed.

Lemma run_app (notifier : GlobalNotifier) (signals signals' : list Signal) :
  forall w,
    run should_handle notifier (signals ++ signals') w =
    match run should_handle notifier signals w with
    | Returns notifier' w' => run should_handle notifier' signals' w'
    | o => o
    end.
Proof.
  revert notifier.
  induction signals as [|s signals IH]; intros notifier w; [reflexivity|].
  simpl. unfold_run.
  destruct (deliver should_handle notifier s w); try reflexivity.
  apply IH.
Qed.


(** One hook: the calls it adds, and what a return leaves in the callback
    object. *)
Lemma deliver_step (notifier : GlobalNotifier) (s : Signal) (w : World) :
  exists cs,
    calls (final_world (deliver should_handle notifier s w)) = calls w ++ cs
    /\ lifecycle_calls cs =
       start_calls_of (m_managed_instance (target notifier))
         (m_did_download (target notifier)) s
    /\ match deliver should_handle notifier s w with
       | Returns notifier' w' =>
           m_managed_instance (target notifier') =
             m_managed_instance (target notifier)
           /\ m_did_download (target notifier') =
              m_did_download (target notifier) || is_download_complete s
       | _ => True
       end.
Proof.
  destruct s as [|e|path virtual_path|change|].
  - exists [start_call (m_managed_instance (target notifier)) 0 None].
    cbn [deliver]. unfold_run. rewrite Callback_download_complete_spec.
    simpl. rewrite orb_true_r. repeat split.
  - cbn [deliver]. unfold_run.
    destruct (m_did_download (target notifier)) eqn:Hdid.
    + rewrite Callback_error_after_download by exact Hdid.
      exists []. simpl. rewrite app_nil_r. destruct e; repeat split.
    + rewrite Callback_error_before_download by exact Hdid.
      destruct e as [value message|what|tag]; simpl.
      * exists [start_call (m_managed_instance (target notifier)) value
                  (Some message)].
        rewrite Hdid. repeat split.
      * exists []. rewrite app_nil_r. repeat split.
      * exists []. rewrite app_nil_r. repeat split.
  - exists [should_handle_call (m_managed_instance (target notifier))
              virtual_path].
    simpl. rewrite orb_false_r. repeat split.
  - exists []. simpl. rewrite app_nil_r, orb_false_r. repeat split.
  - cbn [deliver]. unfold Callback_realm_changed. unfold_run.
    rewrite realm_changed_loop_drains by (simpl; lia).
    destruct (drained_world_calls (m_managed_instance (target notifier))
                (ready notifier)
                {| heap := heap w; next_addr := next_addr w;
                   calls := calls w;
                   logged := logged w ++
                     [(level_trace,
                       "ManagedGlobalNotifier: realm_changed()")] |})
      as (cs & Hcalls & _ & Hlife & _).
    exists cs. simpl. rewrite orb_false_r. repeat split; assumption.
Qed.

(** Once a download has completed, every hook that returns leaves the flag
    set. *)
Lemma run_keeps_did_download (signals : list Signal) :
  forall notifier w notifier' w',
    m_did_download (target notifier) = true ->
    run should_handle notifier signals w = Returns notifier' w' ->
    m_did_download (target notifier') = true.
Proof.
  induction signals as [|s signals IH]; intros notifier w notifier' w' Hdid Hrun.
  - inversion Hrun; subst. exact Hdid.
  - simpl in Hrun. unfold_run.
    destruct (deliver_step notifier s w) as (_ & _ & _ & Hstep).
    destruct (deliver should_handle notifier s w) as [n1 w1| | |];
      try discriminate.
    destruct Hstep as [_ Hflag]. rewrite Hdid in Hflag.
    exact (IH _ _ _ _ Hflag Hrun).
Qed.

(** C2: an error reported after [download_complete] has run ends the
    process: whatever the engine did before the download completed and
    between the download and the error, and whatever it would do after,
    if the execution reaches the error then it stops there with
    [realm::util::terminate], having made no call into the managed side
    for the error (the only effect is the line sent to the logger); if the
    execution had stopped earlier, the error and what follows change
    nothing. *)
Theorem error_after_download_terminates
    (notifier : GlobalNotifier) (before between after : list Signal)
    (e : exception) (w : World) :
  match run should_handle notifier
          (before ++ sig_download_complete :: between) w with
  | Returns _ w1 =>
      run should_handle notifier
        (before ++ sig_download_complete :: between ++ sig_error e :: after)
        w =
      Terminated "Unhandled GlobalNotifier runtime error"
        {| heap := heap w1; next_addr := next_addr w1; calls := calls w1;
           logged := logged w1 ++
             [(level_trace, "ManagedGlobalNotifier: error()")] |}
  | stopped =>
      run should_handle notifier
        (before ++ sig_download_complete :: between ++ sig_error e :: after)
        w = stopped
  end.
Proof.
  replace (before ++ sig_download_complete :: between ++ sig_error e :: after)
    with ((before ++ sig_download_complete :: between)
            ++ sig_error e :: after)
    by (rewrite <- app_assoc; reflexivity).
  rewrite (run_app notifier (before ++ sig_download_complete :: between)).
  destruct (run should_handle notifier
              (before ++ sig_download_complete :: between) w)
    as [n1 w1| | |] eqn:Hrun; try reflexivity.
  assert (Hdid : m_did_download (target n1) = true).
  { rewrite run_app in Hrun.
    destruct (run should_handle notifier before w) as [n0 w0| | |];
      try discriminate.
    simpl in Hrun. unfold_run.
    rewrite Callback_download_complete_spec in Hrun.
    eapply run_keeps_did_download; [|exact Hrun]. reflexivity. }
  simpl. unfold_run.
  rewrite Callback_error_after_download by exact Hdid. reflexivity.
Qed.



(** *** The lifecycle of a conforming engine *)








(** *** Draining the ready queue *)

Lemma commits_app (signals signals' : list Signal) :
  commits (signals ++ signals') = commits signals ++ commits signals'.
Proof.
  induction signals as [|s signals IH]; [reflexivity|].
  destruct s; simpl; rewrite IH; reflexivity.
Qed.

Lemma enqueue_calls_app (cs cs' : list Call) :
  enqueue_calls (cs ++ cs') = enqueue_calls cs ++ enqueue_calls cs'.
Proof. apply List.filter_app. Qed.

(** One hook: the notifications it hands over are those at the front of
    the queue, and a hook that returns leaves the others, followed by the
    commit it stands for if it is one, in the queue. *)
Lemma deliver_enqueues (notifier : GlobalNotifier) (s : Signal) (w : World) :
  exists cs delivered,
    calls (final_world (deliver should_handle notifier s w)) = calls w ++ cs
    /\ Forall2
         (hands_over (m_managed_instance (target notifier))
            (final_world (deliver should_handle notifier s w)))
         (enqueue_calls cs) delivered
    /\ heap_grows w (final_world (deliver should_handle notifier s w))
    /\ match deliver should_handle notifier s w with
       | Returns notifier' _ =>
           delivered ++ ready notifier' = ready notifier ++ commits [s]
           /\ m_managed_instance (target notifier') =
              m_managed_instance (target notifier)
       | _ => delivered = []
       end.
Proof.
  destruct s as [|e|path virtual_path|change|].
  - exists [start_call (m_managed_instance (target notifier)) 0 None], [].
    cbn [deliver]. unfold_run. rewrite Callback_download_complete_spec.
    simpl. rewrite app_nil_r.
    repeat split; first [apply List.Forall2_nil | apply Pos.le_refl].
  - cbn [deliver]. unfold_run.
    destruct (m_did_download (target notifier)) eqn:Hdid.
    + rewrite Callback_error_after_download by exact Hdid.
      exists [], []. simpl. rewrite app_nil_r.
      repeat split; first [apply List.Forall2_nil | apply Pos.le_refl].
    + rewrite Callback_error_before_download by exact Hdid.
      destruct e as [value message|what|tag]; simpl.
      * exists [start_call (m_managed_instance (target notifier)) value
                  (Some message)], [].
        simpl. rewrite app_nil_r. repeat split; first [apply List.Forall2_nil | apply Pos.le_refl].
      * exists [], []. simpl. rewrite app_nil_r.
        repeat split; first [apply List.Forall2_nil | apply Pos.le_refl].
      * exists [], []. simpl. rewrite app_nil_r.
        repeat split; first [apply List.Forall2_nil | apply Pos.le_refl].
  - exists [should_handle_call (m_managed_instance (target notifier))
              virtual_path], [].
    simpl. rewrite app_nil_r. repeat split; first [apply List.Forall2_nil | apply Pos.le_refl].
  - exists [], []. simpl. rewrite app_nil_r.
    repeat split; first [apply List.Forall2_nil | apply Pos.le_refl].
  - cbn [deliver]. unfold Callback_realm_changed. unfold_run.
    rewrite realm_changed_loop_drains by (simpl; lia).
    destruct (drained_world_calls (m_managed_instance (target notifier))
                (ready notifier)
                {| heap := heap w; next_addr := next_addr w;
                   calls := calls w;
                   logged := logged w ++
                     [(level_trace,
                       "ManagedGlobalNotifier: realm_changed()")] |})
      as (cs & Hcalls & Hhands & _ & Henq & Hgrows).
    exists cs, (ready notifier). simpl. rewrite Henq, !app_nil_r.
    repeat split; try assumption; apply Hgrows.
Qed.

Lemma run_enqueues (signals : list Signal) :
  forall notifier w,
    exists cs delivered pending,
      calls (final_world (run should_handle notifier signals w)) =
        calls w ++ cs
      /\ ready notifier ++ commits signals = delivered ++ pending
      /\ Forall2
           (hands_over (m_managed_instance (target notifier))
              (final_world (run should_handle notifier signals w)))
           (enqueue_calls cs) delivered
      /\ heap_grows w (final_world (run should_handle notifier signals w))
      /\ match run should_handle notifier signals w with
         | Returns notifier' _ => ready notifier' = pending
         | _ => True
         end.
Proof.
  induction signals as [|s signals IH]; intros notifier w.
  - exists [], [], (ready notifier). simpl. rewrite !app_nil_r.
    repeat split; first [apply List.Forall2_nil | apply Pos.le_refl].
  - destruct (deliver_enqueues notifier s w)
      as (cs1 & delivered1 & Hcalls1 & Hhands1 & Hgrows1 & Hret).
    change (s :: signals) with ([s] ++ signals).
    rewrite commits_app. cbn [run app]. unfold_run.
    destruct (deliver should_handle notifier s w) as [n1 w1|e1 w1|m1 w1|w1].
    + destruct Hret as [Hqueue Hinst]. simpl in Hcalls1, Hhands1, Hgrows1.
      destruct (IH n1 w1)
        as (cs2 & delivered2 & pending & Hcalls2 & Hsplit & Hhands2
            & Hgrows2 & Hret2).
      rewrite Hinst in Hhands2.
      exists (cs1 ++ cs2), (delivered1 ++ delivered2), pending.
      repeat split.
      * rewrite Hcalls2, Hcalls1. apply eq_sym, app_assoc.
      * rewrite app_assoc, <- Hqueue, <- !app_assoc, Hsplit. reflexivity.
      * rewrite enqueue_calls_app. apply Forall2_app; [|exact Hhands2].
        eapply Forall2_impl; [exact Hhands1|].
        intros call change. apply hands_over_grows, Hgrows2.
      * apply (heap_grows_trans _ _ _ Hgrows1 Hgrows2).
      * apply (heap_grows_trans _ _ _ Hgrows1 Hgrows2).
      * exact Hret2.
    + subst delivered1.
      exists cs1, [], (ready notifier ++ commits [s] ++ commits signals).
      repeat split; try assumption; apply Hgrows1.
    + subst delivered1.
      exists cs1, [], (ready notifier ++ commits [s] ++ commits signals).
      repeat split; try assumption; apply Hgrows1.
    + subst delivered1.
      exists cs1, [], (ready notifier ++ commits [s] ++ commits signals).
      repeat split; try assumption; apply Hgrows1.
Qed.

Lemma hands_over_same_store (managed_instance : N) (w : World)
    (store : string) (cs : list Call) (changes : list ChangeNotification) :
  Forall2 (hands_over managed_instance w) cs changes ->
  Forall2 (hands_over managed_instance w)
    (List.filter (call_for_store store) cs) (for_store store changes).
Proof.
  induction 1 as [|call change cs changes Hhead Htail IH]; [constructor|].
  destruct Hhead as (p & -> & Hp). simpl.
  destruct (String.eqb (realm_path change) store).
  - constructor; [|exact IH]. exists p. split; [reflexivity | exact Hp].
  - exact IH.
Qed.

(** C8: a drain pass, given fuel for more iterations than there are ready
    notifications, returns with the queue empty, and the calls it made are
    exactly one call of the enqueue callback for each notification that
    [next_changed_realm] popped, in the order of the pops, each with the
    path of its notification and a fresh, live handle that owns it.  Over
    an execution, the notifications handed over so far are an initial
    segment of those made ready (the ready queue of the notifier at the
    start, then the commits in order), the remainder being still in the
    queue when the execution returns; the same holds store by store. *)
Theorem realm_changed_enqueues_in_pop_order :
  (forall (this : Callback) (notifier : GlobalNotifier) (extra : nat)
          (w : World),
     (exists w',
        Callback_realm_changed (S (length (ready notifier) + extra)) this
          notifier w = Returns (Some (set_ready notifier [])) w')
     /\ Forall2
          (hands_over (m_managed_instance this)
             (final_world
                (Callback_realm_changed (S (length (ready notifier) + extra))
                   this notifier w)))
          (new_calls w
             (Callback_realm_changed (S (length (ready notifier) + extra))
                this notifier w))
          (ready notifier))
  /\ (forall (notifier : GlobalNotifier) (signals : list Signal) (w : World),
        exists delivered pending,
          ready notifier ++ commits signals = delivered ++ pending
          /\ Forall2
               (hands_over (m_managed_instance (target notifier))
                  (final_world (run should_handle notifier signals w)))
               (enqueue_calls
                  (new_calls w (run should_handle notifier signals w)))
               delivered
          /\ (forall store,
                Forall2
                  (hands_over (m_managed_instance (target notifier))
                     (final_world (run should_handle notifier signals w)))
                  (List.filter (call_for_store store)
                     (enqueue_calls
                        (new_calls w
                           (run should_handle notifier signals w))))
                  (for_store store delivered)
                /\ for_store store delivered `prefix_of`
                     for_store store (ready notifier ++ commits signals))
          /\ match run should_handle notifier signals w with
             | Returns notifier' _ => ready notifier' = pending
             | _ => True
             end).
Proof.
  split.
  - intros this notifier extra w. unfold Callback_realm_changed. unfold_run.
    rewrite realm_changed_loop_drains by lia.
    destruct (drained_world_calls (m_managed_instance this) (ready notifier)
                {| heap := heap w; next_addr := next_addr w;
                   calls := calls w;
                   logged := logged w ++
                     [(level_trace,
                       "ManagedGlobalNotifier: realm_changed()")] |})
      as (cs & Hcalls & Hhands & _).
    split; [eexists; reflexivity|].
    rewrite (new_calls_app w _ cs) by exact Hcalls. exact Hhands.
  - intros notifier signals w.
    destruct (run_enqueues signals notifier w)
      as (cs & delivered & pending & Hcalls & Hsplit & Hhands & _ & Hret).
    exists delivered, pending.
    rewrite (new_calls_app _ _ _ Hcalls).
    repeat split; try assumption.
    + apply hands_over_same_store, Hhands.
    + rewrite Hsplit. unfold for_store. rewrite List.filter_app.
      apply prefix_app_r. reflexivity.
Qed.

(** ** The exported functions *)

(** *** Creation *)

(** C3, as the wrapper has it: the constructor of the notifier leaves it
    not listening, but [realm_server_create_global_notifier] calls
    [start()] itself before it returns: the handle of a successful creation
    is not null and refers to a notifier that is listening already, with a
    callback object for the managed instance that has seen no download and
    an empty ready queue; a failed creation returns a null handle and
    leaves the heap as it was.  The function returns in every case. *)
Theorem create_starts_listening
    (managed_instance : N) (configuration : SyncConfiguration)
    (encryption_key : N) (w : World) :
  match realm_server_create_global_notifier convert_exception
          Utf16StringAccessor configuration_error managed_instance
          configuration encryption_key w with
  | Returns (handle, NoError) w' =>
      handle <> 0
      /\ exists notifier,
           heap w' !! handle = Some (NotifierHandle notifier)
           /\ listening notifier = true
           /\ target notifier = Callback_new managed_instance
           /\ ready notifier = []
  | Returns (handle, NativeException _ _) w' =>
      handle = 0 /\ heap w' = heap w
  | _ => False
  end
  /\ forall callback working_dir config,
       match GlobalNotifier_new configuration_error callback working_dir
               config w with
       | Returns notifier _ => listening notifier = false
       | _ => True
       end.
Proof.
  split.
  - unfold realm_server_create_global_notifier, GlobalNotifier_new,
      GlobalNotifier_start.
    unfold_run.
    destruct (Utf16StringAccessor (url configuration)) as [realm_url|e];
      [|simpl; split; reflexivity].
    destruct (Utf16StringAccessor (trusted_ca_path configuration))
      as [trusted_ca|e]; [|simpl; split; reflexivity].
    destruct (Utf16StringAccessor (partial_sync_identifier configuration))
      as [dir|e]; [|simpl; split; reflexivity].
    simpl.
    destruct (configuration_error dir _) as [e|];
      [simpl; split; reflexivity|].
    simpl. split; [discriminate|].
    eexists. split; [apply lookup_insert_eq|]. repeat split.
  - intros callback dir config. unfold GlobalNotifier_new. unfold_run.
    destruct (configuration_error dir config); [exact I | reflexivity].
Qed.

(** *** Marshalling the changes *)

Lemma marshal_changeset_ascending (changeset : string * CollectionChangeSet) :
  changeset_wf (snd changeset) = true ->
  ascending (deletions (marshal_changeset changeset))
  /\ ascending (insertions (marshal_changeset changeset))
  /\ ascending (previous_modifications (marshal_changeset changeset))
  /\ ascending (current_modifications (marshal_changeset changeset)).
Proof.
  unfold changeset_wf. rewrite !andb_true_iff.
  intros [[[Hd Hi] Hm] Hn].
  repeat split; apply get_indexes_vector_ascending; assumption.
Qed.

(** What a request for the changes does, by the outcome of the three calls
    into the engine. *)
Lemma get_changes_outcome (change : ChangeNotification)
    (managed_callback : N) (w : World) :
  match get_changes change, get_old_realm change, get_new_realm change with
  | Value changes, Value old_realm, Value newRealm =>
      exists delivered w',
        realm_server_global_notifier_notification_get_changes
          convert_exception change managed_callback w =
          Returns (tt, NoError) w'
        /\ calls w' = calls w ++
             [calculation_complete_call delivered managed_callback]
        /\ path delivered = realm_path change
        /\ path_on_disk delivered = config_path newRealm
        /\ changesets delivered = map marshal_changeset changes
        /\ (previous delivered = 0 <-> old_realm = None)
        /\ current delivered <> 0
        /\ previous delivered <> current delivered
        /\ heap w' !! current delivered =
             Some (SharedRealmObject (Some newRealm))
        /\ (previous delivered <> 0 ->
            heap w' !! previous delivered =
              Some (SharedRealmObject old_realm))
  | Raise e, _, _ | Value _, Raise e, _ | Value _, Value _, Raise e =>
      exists w',
        realm_server_global_notifier_notification_get_changes
          convert_exception change managed_callback w =
          Returns (tt, for_marshalling convert_exception e) w'
        /\ calls w' = calls w
  end.
Proof.
  unfold realm_server_global_notifier_notification_get_changes. unfold_run.
  destruct (get_changes change) as [changes|e];
    [|eexists; split; reflexivity].
  destruct (get_old_realm change) as [old_realm|e];
    [|eexists; split; reflexivity].
  destruct old_realm as [old|];
    (destruct (get_new_realm change) as [newRealm|e];
     [|eexists; split; reflexivity]);
    simpl; eexists; eexists; (split; [reflexivity|]); simpl;
    repeat split; simpl; try discriminate; try lia;
    try (intros;
         first [ apply lookup_insert_eq
               | rewrite lookup_insert_ne by lia; apply lookup_insert_eq
               | contradiction ]).
Qed.

Lemma marshal_changeset_changeset_ascending
    (changeset : string * CollectionChangeSet) :
  changeset_wf (snd changeset) = true ->
  changeset_ascending (marshal_changeset changeset).
Proof.
  intros H. destruct (marshal_changeset_ascending changeset H)
    as (Hd & Hi & Hp & Hc).
  repeat split; try assumption; apply ascending_NoDup; assumption.
Qed.

Ltac engine_cases change :=
  destruct (get_changes change) as [?changes|?e];
  [destruct (get_old_realm change) as [?old_realm|?e];
   [destruct (get_new_realm change) as [?newRealm|?e]|]|].

(** What a request for the changes delivers: the marshalled changesets of
    the notification, once, when the engine gives them, and nothing when a
    call into the engine throws. *)
Lemma get_changes_delivers (change : ChangeNotification)
    (managed_callback : N) (w : World) :
  delivered_changesets
    (new_calls w
       (realm_server_global_notifier_notification_get_changes
          convert_exception change managed_callback w)) =
  match get_changes change, get_old_realm change, get_new_realm change with
  | Value changes, Value _, Value _ => [map marshal_changeset changes]
  | _, _, _ => []
  end.
Proof.
  generalize (get_changes_outcome change managed_callback w).
  engine_cases change.
  - intros (delivered & w' & Hrun & Hcalls & _ & _ & Hsets & _).
    rewrite Hrun, (new_calls_Returns _ _ _ _ Hcalls). simpl. rewrite Hsets.
    reflexivity.
  - intros (w' & Hrun & Hcalls). rewrite Hrun.
    rewrite (new_calls_unchanged _ _ _ Hcalls).
    reflexivity.
  - intros (w' & Hrun & Hcalls). rewrite Hrun.
    rewrite (new_calls_unchanged _ _ _ Hcalls).
    reflexivity.
  - intros (w' & Hrun & Hcalls). rewrite Hrun.
    rewrite (new_calls_unchanged _ _ _ Hcalls).
    reflexivity.
Qed.

(** C5: a request for the changes delivers at most one structure; in it the
    reference to the previous snapshot is null exactly when the
    notification has no previous snapshot, and the reference to the current
    snapshot is not null.  When the three calls into the engine succeed,
    exactly one structure is delivered, its current reference owns the new
    snapshot, and its previous reference, when not null, owns the old
    one. *)
Theorem delivered_snapshot_references
    (change : ChangeNotification) (managed_callback : N) (w : World) :
  Forall
    (fun call =>
       match call with
       | calculation_complete_call delivered _ =>
           (previous delivered = 0 <-> get_old_realm change = Value None)
           /\ current delivered <> 0
       | _ => True
       end)
    (new_calls w
       (realm_server_global_notifier_notification_get_changes
          convert_exception change managed_callback w))
  /\ match get_changes change, get_old_realm change, get_new_realm change
     with
     | Value _, Value old_realm, Value newRealm =>
         exists delivered w',
           realm_server_global_notifier_notification_get_changes
             convert_exception change managed_callback w =
             Returns (tt, NoError) w'
           /\ new_calls w
                (realm_server_global_notifier_notification_get_changes
                   convert_exception change managed_callback w) =
              [calculation_complete_call delivered managed_callback]
           /\ heap w' !! current delivered =
                Some (SharedRealmObject (Some newRealm))
           /\ (previous delivered <> 0 ->
               heap w' !! previous delivered =
                 Some (SharedRealmObject old_realm))
     | _, _, _ => True
     end.
Proof.
  generalize (get_changes_outcome change managed_callback w).
  engine_cases change.
  - intros (delivered & w' & Hrun & Hcalls & _ & _ & _ & Hprev
            & Hcur & _ & Hheap & Hheap').
    rewrite Hrun. rewrite (new_calls_Returns _ _ _ _ Hcalls).
    split.
    + constructor; [|constructor]. split; [|exact Hcur].
      rewrite Hprev. split; [intros ->; reflexivity | congruence].
    + exists delivered, w'. repeat split; assumption.
  - intros (w' & Hrun & Hcalls). rewrite Hrun.
    rewrite (new_calls_unchanged _ _ _ Hcalls).
    split; [constructor | exact I].
  - intros (w' & Hrun & Hcalls). rewrite Hrun.
    rewrite (new_calls_unchanged _ _ _ Hcalls).
    split; [constructor | exact I].
  - intros (w' & Hrun & Hcalls). rewrite Hrun.
    rewrite (new_calls_unchanged _ _ _ Hcalls).
    split; [constructor | exact I].
Qed.

(** C6: when the index sets the engine reports satisfy their class
    invariant, each of the four index arrays of every delivered changeset
    is strictly ascending and has no duplicates.  Flattening the set built
    from the positions 2, 5, 5, 7 gives 2, 5, 7; and flattening the set
    built from any positions gives those positions, strictly ascending. *)
Theorem delivered_indexes_ascending :
  (forall (change : ChangeNotification) (managed_callback : N) (w : World),
     changes_wf change = true ->
     Forall (Forall changeset_ascending)
       (delivered_changesets
          (new_calls w
             (realm_server_global_notifier_notification_get_changes
                convert_exception change managed_callback w))))
  /\ get_indexes_vector (IndexSet_of_positions [2; 5; 5; 7]) = [2; 5; 7]
  /\ (forall positions,
        ascending_no_duplicates
          (get_indexes_vector (IndexSet_of_positions positions))
        /\ forall x,
             In x (get_indexes_vector (IndexSet_of_positions positions))
             <-> In x positions).
Proof.
  split; [|split].
  - intros change managed_callback w Hwf.
    rewrite get_changes_delivers. unfold changes_wf in Hwf.
    destruct (get_changes change) as [changes|e1]; [|constructor].
    destruct (get_old_realm change) as [old_realm|e2]; [|constructor].
    destruct (get_new_realm change) as [newRealm|e3]; [|constructor].
    constructor; [|constructor].
    apply List.Forall_forall. intros c Hc.
    apply in_map_iff in Hc as (changeset & <- & Hin).
    apply marshal_changeset_changeset_ascending.
    rewrite forallb_forall in Hwf. apply (Hwf _ Hin).
  - reflexivity.
  - intros positions. split.
    + pose proof (get_indexes_vector_ascending _
                    (IndexSet_of_positions_wf positions)) as H.
      split; [exact H | apply ascending_NoDup, H].
    + intros x. apply In_get_indexes_vector_of_positions.
Qed.

(** *** The diff computation *)



(** *** The boundary *)

(** C9: whatever is thrown while a notifier is created or the changes are
    marshalled is caught by [handle_errors]: the exported function returns,
    with the exception converted into the error result.  Creation then
    returns a null handle, with the heap and the calls as they were; a
    request for the changes then makes no call of the calculation-complete
    callback.  Without an exception the result is [NoError], creation
    returns a fresh handle and the request makes exactly one call. *)
Theorem boundary_catches_exceptions :
  (forall (managed_instance : N) (configuration : SyncConfiguration)
          (encryption_key : N) (w : World),
     match Utf16StringAccessor (url configuration) with
     | Raise e =>
         realm_server_create_global_notifier convert_exception
           Utf16StringAccessor configuration_error managed_instance
           configuration encryption_key w =
         Returns (0, for_marshalling convert_exception e) w
     | Value realm_url =>
         match Utf16StringAccessor (trusted_ca_path configuration) with
         | Raise e =>
             realm_server_create_global_notifier convert_exception
               Utf16StringAccessor configuration_error managed_instance
               configuration encryption_key w =
             Returns (0, for_marshalling convert_exception e) w
         | Value trusted_ca =>
             match Utf16StringAccessor
                     (partial_sync_identifier configuration) with
             | Raise e =>
                 realm_server_create_global_notifier convert_exception
                   Utf16StringAccessor configuration_error managed_instance
                   configuration encryption_key w =
                 Returns (0, for_marshalling convert_exception e) w
             | Value dir =>
                 match configuration_error dir
                         {| config_user := user configuration;
                            config_realm_url := realm_url;
                            config_bind_session_handler := bind_session;
                            config_error_handler := handle_session_error;
                            config_stop_policy := Immediately;
                            config_client_validate_ssl :=
                              client_validate_ssl configuration;
                            config_ssl_trust_certificate_path :=
                              trusted_ca |} with
                 | Some e =>
                     realm_server_create_global_notifier convert_exception
                       Utf16StringAccessor configuration_error
                       managed_instance configuration encryption_key w =
                     Returns (0, for_marshalling convert_exception e) w
                 | None =>
                     exists w',
                       realm_server_create_global_notifier convert_exception
                         Utf16StringAccessor configuration_error
                         managed_instance configuration encryption_key w =
                       Returns (N.pos (next_addr w), NoError) w'
                       /\ calls w' = calls w
                 end
             end
         end
     end)
  /\ (forall (change : ChangeNotification) (managed_callback : N)
             (w : World),
        match get_changes change, get_old_realm change,
              get_new_realm change with
        | Value _, Value _, Value _ =>
            exists delivered w',
              realm_server_global_notifier_notification_get_changes
                convert_exception change managed_callback w =
                Returns (tt, NoError) w'
              /\ calls w' = calls w ++
                   [calculation_complete_call delivered managed_callback]
        | Raise e, _, _ | Value _, Raise e, _ | Value _, Value _, Raise e =>
            exists w',
              realm_server_global_notifier_notification_get_changes
                convert_exception change managed_callback w =
                Returns (tt, for_marshalling convert_exception e) w'
              /\ calls w' = calls w
        end).
Proof.
  split.
  - intros managed_instance configuration encryption_key w.
    unfold realm_server_create_global_notifier, GlobalNotifier_new,
      GlobalNotifier_start.
    unfold_run.
    destruct (Utf16StringAccessor (url configuration)) as [realm_url|e];
      [|reflexivity].
    destruct (Utf16StringAccessor (trusted_ca_path configuration))
      as [trusted_ca|e]; [|reflexivity].
    destruct (Utf16StringAccessor (partial_sync_identifier configuration))
      as [dir|e]; [|reflexivity].
    simpl.
    destruct (configuration_error dir _) as [e|]; [reflexivity|].
    eexists. split; reflexivity.
  - intros change managed_callback w.
    generalize (get_changes_outcome change managed_callback w).
    engine_cases change.
    + intros (delivered & w' & Hrun & Hcalls & _).
      exists delivered, w'. split; assumption.
    + intros H; exact H.
    + intros H; exact H.
    + intros H; exact H.
Qed.

(** *** Destruction *)

Lemma cpp_delete_null (of_type : Object -> bool) (w : World) :
  cpp_delete of_type 0 w = Returns tt w.
Proof. reflexivity. Qed.

Lemma cpp_delete_live (of_type : Object -> bool) (p : N) (o : Object)
    (w : World) :
  p <> 0 -> heap w !! p = Some o -> of_type o = true ->
  cpp_delete of_type p w = Returns tt (set_heap (delete p (heap w)) w).
Proof.
  intros Hp Ho Ht. unfold cpp_delete.
  destruct (N.eqb_spec p 0) as [->|_]; [contradiction|].
  rewrite Ho, Ht. reflexivity.
Qed.

(** C10: both destroy functions do nothing when given a null handle; given
    a live handle of their type they return with that handle released and
    every other object, the calls and the allocator untouched. *)
Theorem destroy_null_safe :
  (forall w,
     realm_server_global_notifier_destroy 0 w = Returns tt w
     /\ realm_server_global_notifier_notification_destroy 0 w = Returns tt w)
  /\ (forall w handle notifier,
        handle <> 0 ->
        heap w !! handle = Some (NotifierHandle notifier) ->
        exists w',
          realm_server_global_notifier_destroy handle w = Returns tt w'
          /\ heap w' !! handle = None
          /\ (forall q, q <> handle -> heap w' !! q = heap w !! q)
          /\ calls w' = calls w
          /\ next_addr w' = next_addr w)
  /\ (forall w handle change,
        handle <> 0 ->
        heap w !! handle = Some (NotificationObject change) ->
        exists w',
          realm_server_global_notifier_notification_destroy handle w =
            Returns tt w'
          /\ heap w' !! handle = None
          /\ (forall q, q <> handle -> heap w' !! q = heap w !! q)
          /\ calls w' = calls w
          /\ next_addr w' = next_addr w).
Proof.
  split; [|split].
  - intros w. split; apply cpp_delete_null.
  - intros w handle notifier Hnull Hlive.
    unfold realm_server_global_notifier_destroy.
    rewrite (cpp_delete_live _ _ _ _ Hnull Hlive) by reflexivity.
    eexists. split; [reflexivity|]. simpl. repeat split.
    + apply lookup_delete_eq.
    + intros q Hq. apply lookup_delete_ne. congruence.
  - intros w handle change Hnull Hlive.
    unfold realm_server_global_notifier_notification_destroy.
    rewrite (cpp_delete_live _ _ _ _ Hnull Hlive) by reflexivity.
    eexists. split; [reflexivity|]. simpl. repeat split.
    + apply lookup_delete_eq.
    + intros q Hq. apply lookup_delete_ne. congruence.
Qed.

End Properties.

(** ** The properties on the sample data *)

(** The coordinate-space scenario: of the rows A, B, C, then A, C, D, the
    diff reports B, at position 1 of the previous snapshot, as deleted, D,
    at position 2 of the current one, as inserted, and no modification. *)
Lemma compute_changes_coordinate_scenario :
  map marshal_changeset
    (compute_changes (Some sample_previous_snapshot)
       sample_current_snapshot) =
  [{| class_name := "Person"; deletions := [1]; insertions := [2];
      previous_modifications := []; current_modifications := [] |}].
Proof. reflexivity. Qed.



(** C3 as stated fails: creation with the sample configuration succeeds,
    and the notifier behind the handle it returns is listening already. *)
Lemma create_returns_listening_notifier :
  exists w' notifier,
    realm_server_create_global_notifier sample_convert_exception
      sample_Utf16StringAccessor sample_configuration_error 42
      sample_configuration 0 empty_world = Returns (1, NoError) w'
    /\ heap w' !! 1 = Some (NotifierHandle notifier)
    /\ listening notifier = true.
Proof.
  eexists. eexists. split; [reflexivity|]. split; reflexivity.
Qed.

Lemma delivered_snapshot_references_witness :
  Forall
    (fun call =>
       match call with
       | calculation_complete_call delivered _ =>
           (previous delivered = 0 <->
            get_old_realm (sample_change "/a" None) = Value None)
           /\ current delivered <> 0
       | _ => True
       end)
    (new_calls empty_world
       (realm_server_global_notifier_notification_get_changes
          sample_convert_exception (sample_change "/a" None) 9 empty_world)).
Proof.
  apply (delivered_snapshot_references sample_convert_exception
           (sample_change "/a" None) 9 empty_world).
Defined.

Lemma delivered_indexes_ascending_witness :
  changes_wf (sample_change "/a" None) = true
  /\ Forall (Forall changeset_ascending)
       (delivered_changesets
          (new_calls empty_world
             (realm_server_global_notifier_notification_get_changes
                sample_convert_exception (sample_change "/a" None) 9
                empty_world))).
Proof.
  split; [reflexivity|].
  apply (proj1 (delivered_indexes_ascending sample_convert_exception)).
  reflexivity.
Defined.

Lemma destroy_null_safe_witness :
  (1 <> 0
   /\ heap sample_live_world !! 1 = Some (NotifierHandle sample_notifier)
   /\ exists w',
        realm_server_global_notifier_destroy 1 sample_live_world =
          Returns tt w'
        /\ heap w' !! 1 = None
        /\ (forall q, q <> 1 -> heap w' !! q = heap sample_live_world !! q)
        /\ calls w' = calls sample_live_world
        /\ next_addr w' = next_addr sample_live_world)
  /\ (2 <> 0
      /\ heap sample_live_world !! 2 =
           Some (NotificationObject (sample_change "/a" None))
      /\ exists w',
           realm_server_global_notifier_notification_destroy 2
             sample_live_world = Returns tt w'
           /\ heap w' !! 2 = None
           /\ (forall q, q <> 2 ->
                heap w' !! q = heap sample_live_world !! q)
           /\ calls w' = calls sample_live_world
           /\ next_addr w' = next_addr sample_live_world).
Proof.
  destruct destroy_null_safe as (_ & Hnotifier & Hnotification).
  split; (split; [discriminate|]); (split; [reflexivity|]).
  - apply (Hnotifier sample_live_world 1 sample_notifier);
      [discriminate | reflexivity].
  - apply (Hnotification sample_live_world 2 (sample_change "/a" None));
      [discriminate | reflexivity].
Defined.

(** * Further properties of the wrapper *)

Section Ownership.

Variable should_handle : list Call -> N -> string -> bool.
Variable convert_exception : exception -> Z * string.
Variable Utf16StringAccessor : list N -> Exc string.
Variable configuration_error : string -> SyncConfig -> option exception.
Variable get_shared_realm : RealmConfig -> Exc Realm.

Ltac unfold_all :=
  unfold mbind, mret, Run_bind, Run_ret, bind, ret, throw, terminate,
    try_catch, engine, for_marshalling, s_enqueue_calculation_callback,
    s_start_callback, s_calculation_complete_callback,
    s_should_handle_callback, record_call, log, new, handle_errors in *.

Ltac split_all := repeat match goal with |- _ /\ _ => split end.

(** ** The allocator *)

Lemma heap_wf_fresh (w : World) (p : N) :
  heap_wf w -> N.pos (next_addr w) <= p -> heap w !! p = None.
Proof.
  intros Hwf Hp. destruct (heap w !! p) eqn:Hlook; [|reflexivity].
  destruct (Hwf p) as [_ Hlt]; [rewrite Hlook; eauto | lia].
Qed.

Lemma heap_wf_null (w : World) : heap_wf w -> heap w !! 0 = None.
Proof.
  intros Hwf. destruct (heap w !! 0) eqn:Hlook; [|reflexivity].
  destruct (Hwf 0) as [Hnull _]; [rewrite Hlook; eauto | contradiction].
Qed.

Lemma heap_wf_insert (w : World) (o : Object) (cs : list Call)
    (ls : list (LogLevel * string)) :
  heap_wf w ->
  heap_wf {| heap := <[N.pos (next_addr w) := o]> (heap w);
             next_addr := Pos.succ (next_addr w);
             calls := cs; logged := ls |}.
Proof.
  intros Hwf p. simpl. rewrite lookup_insert.
  destruct (decide (N.pos (next_addr w) = p)) as [<-|Hne].
  - intros _. split; [discriminate | lia].
  - intros Hp. destruct (Hwf p Hp). split; [assumption | lia].
Qed.

Lemma handles_from_S (first : N) (count : nat) :
  handles_from first (S count) = first :: handles_from (first + 1) count.
Proof.
  unfold handles_from. simpl. rewrite N.add_0_r. f_equal.
  rewrite <- seq_shift, List.map_map. apply List.map_ext.
  intros i. lia.
Qed.

Lemma handles_from_app (first : N) (count count' : nat) :
  handles_from first (count + count') =
  handles_from first count
  ++ handles_from (first + N.of_nat count) count'.
Proof.
  revert first. induction count as [|count IH]; intros first.
  - simpl. rewrite N.add_0_r. reflexivity.
  - change (S count + count')%nat with (S (count + count')).
    rewrite !handles_from_S, IH. simpl. do 3 f_equal. lia.
Qed.

Lemma In_handles_from (first : N) (count : nat) (p : N) :
  In p (handles_from first count) <->
  first <= p < first + N.of_nat count.
Proof.
  unfold handles_from. rewrite in_map_iff. split.
  - intros (i & <- & Hi). apply in_seq in Hi. lia.
  - intros H. exists (N.to_nat (p - first)). split; [lia|].
    apply in_seq. lia.
Qed.

Lemma handles_from_NoDup (first : N) (count : nat) :
  List.NoDup (handles_from first count).
Proof.
  revert first. induction count as [|count IH]; intros first.
  - constructor.
  - rewrite handles_from_S. constructor; [|apply IH].
    rewrite In_handles_from. lia.
Qed.

Lemma enqueued_handles_app (cs cs' : list Call) :
  enqueued_handles (cs ++ cs') = enqueued_handles cs ++ enqueued_handles cs'.
Proof.
  induction cs as [|c cs IH]; [reflexivity|].
  destruct c; simpl; rewrite IH; reflexivity.
Qed.

(** What a drain pass over [changes] does to the world: the calls it adds
    are enqueue calls for the instance, their handles are the next
    addresses of the allocator, and the heap changes at those addresses
    only. *)
Lemma drained_world_effect (managed_instance : N) :
  forall (changes : list ChangeNotification) (w : World),
    exists cs,
      calls (drained_world managed_instance changes w) = calls w ++ cs
      /\ forallb (call_from managed_instance) cs = true
      /\ List.filter is_should_handle_call cs = []
      /\ length (enqueue_calls cs) = length changes
      /\ enqueued_handles cs =
         handles_from (N.pos (next_addr w)) (length changes)
      /\ N.pos (next_addr (drained_world managed_instance changes w)) =
         N.pos (next_addr w) + N.of_nat (length changes)
      /\ (forall q,
            ~ In q (handles_from (N.pos (next_addr w)) (length changes)) ->
            heap (drained_world managed_instance changes w) !! q =
            heap w !! q)
      /\ (heap_wf w ->
          heap_wf (drained_world managed_instance changes w)).
Proof.
  induction changes as [|change rest IH]; intros w.
  - exists []. simpl. rewrite app_nil_r. split_all; auto; lia.
  - cbn [drained_world].
    destruct (IH {| heap := <[N.pos (next_addr w) := NotificationObject change]>
                              (heap w);
                    next_addr := Pos.succ (next_addr w);
                    calls := calls w ++
                      [enqueue_calculation_call managed_instance
                         (realm_path change) (N.pos (next_addr w))];
                    logged := logged w |})
      as (cs & Hcalls & Hfrom & Hadm & Hlen & Hhandles & Hnext & Hheap
          & Hwf).
    cbn [heap next_addr calls] in Hcalls, Hhandles, Hnext, Hheap.
    exists (enqueue_calculation_call managed_instance (realm_path change)
              (N.pos (next_addr w)) :: cs).
    cbn [length]. rewrite handles_from_S.
    replace (N.pos (next_addr w) + 1) with (N.pos (Pos.succ (next_addr w)))
      by lia.
    split_all.
    + rewrite Hcalls, <- app_assoc. reflexivity.
    + simpl. rewrite N.eqb_refl, Hfrom. reflexivity.
    + simpl. exact Hadm.
    + simpl. rewrite Hlen. reflexivity.
    + simpl. rewrite Hhandles. reflexivity.
    + rewrite Hnext. lia.
    + intros q Hq. rewrite Hheap by (intros Hin; apply Hq; right; exact Hin).
      apply lookup_insert_ne. intros Heq. apply Hq. left. exact Heq.
    + intros H. apply Hwf, heap_wf_insert, H.
Qed.

Lemma admission_calls_cons (managed_instance : N) (s : Signal)
    (signals : list Signal) :
  admission_calls managed_instance (s :: signals) =
  admission_calls managed_instance [s]
  ++ admission_calls managed_instance signals.
Proof. destruct s; reflexivity. Qed.

(** ** One hook *)

(** Everything one hook does: the calls it makes are for the instance of
    the callback object, the handles it hands out are the next addresses of
    the allocator, the heap changes at those addresses only, and a hook
    that returns leaves the notifier as it was but for the download flag
    and the ready queue. *)
Lemma deliver_effect (notifier : GlobalNotifier) (s : Signal) (w : World) :
  exists cs,
    calls (final_world (deliver should_handle notifier s w)) = calls w ++ cs
    /\ forallb (call_from (m_managed_instance (target notifier))) cs = true
    /\ List.filter is_should_handle_call cs =
       admission_calls (m_managed_instance (target notifier)) [s]
    /\ enqueued_handles cs =
       handles_from (N.pos (next_addr w)) (length (enqueue_calls cs))
    /\ N.pos (next_addr (final_world (deliver should_handle notifier s w))) =
       N.pos (next_addr w) + N.of_nat (length (enqueue_calls cs))
    /\ (forall q,
          ~ In q (handles_from (N.pos (next_addr w))
                    (length (enqueue_calls cs))) ->
          heap (final_world (deliver should_handle notifier s w)) !! q =
          heap w !! q)
    /\ (heap_wf w ->
        heap_wf (final_world (deliver should_handle notifier s w)))
    /\ match deliver should_handle notifier s w with
       | Returns notifier' _ =>
           m_managed_instance (target notifier') =
             m_managed_instance (target notifier)
           /\ m_did_download (target notifier') =
              m_did_download (target notifier) || is_download_complete s
           /\ working_dir notifier' = working_dir notifier
           /\ sync_config notifier' = sync_config notifier
           /\ listening notifier' = listening notifier
       | _ => True
       end.
Proof.
  destruct s as [|e|path virtual_path|change|].
  - exists [start_call (m_managed_instance (target notifier)) 0 None].
    cbn [deliver]. unfold_all. rewrite Callback_download_complete_spec.
    simpl. rewrite N.eqb_refl, orb_true_r, N.add_0_r.
    split_all; auto.
  - cbn [deliver]. unfold_all.
    destruct (m_did_download (target notifier)) eqn:Hdid.
    + rewrite Callback_error_after_download by exact Hdid.
      exists []. simpl. rewrite app_nil_r, N.add_0_r. split_all; auto.
    + rewrite Callback_error_before_download by exact Hdid.
      destruct e as [value message|what|tag]; simpl.
      * exists [start_call (m_managed_instance (target notifier)) value
                  (Some message)].
        simpl. rewrite N.eqb_refl, N.add_0_r, Hdid. split_all; auto.
      * exists []. simpl. rewrite app_nil_r, N.add_0_r. split_all; auto.
      * exists []. simpl. rewrite app_nil_r, N.add_0_r. split_all; auto.
  - exists [should_handle_call (m_managed_instance (target notifier))
              virtual_path].
    simpl. rewrite N.eqb_refl, orb_false_r, N.add_0_r. split_all; auto.
  - exists []. simpl. rewrite app_nil_r, orb_false_r, N.add_0_r.
    split_all; auto.
  - cbn [deliver]. unfold Callback_realm_changed. unfold_all.
    rewrite realm_changed_loop_drains by (simpl; lia).
    destruct (drained_world_effect (m_managed_instance (target notifier))
                (ready notifier)
                {| heap := heap w; next_addr := next_addr w;
                   calls := calls w;
                   logged := logged w ++
                     [(level_trace,
                       "ManagedGlobalNotifier: realm_changed()")] |})
      as (cs & Hcalls & Hfrom & Hadm & Hlen & Hhandles & Hnext & Hheap
          & Hwf).
    cbn [heap next_addr calls] in Hcalls, Hhandles, Hnext, Hheap.
    exists cs. cbn [final_world default]. rewrite Hlen, orb_false_r.
    split_all; auto.
Qed.

(** ** An execution *)

Lemma forallb_call_from_app (managed_instance : N) (cs cs' : list Call) :
  forallb (call_from managed_instance) cs = true ->
  forallb (call_from managed_instance) cs' = true ->
  forallb (call_from managed_instance) (cs ++ cs') = true.
Proof. intros H H'. rewrite forallb_app, H, H'. reflexivity. Qed.

Lemma run_effect (signals : list Signal) :
  forall notifier w,
    exists cs,
      calls (final_world (run should_handle notifier signals w)) =
        calls w ++ cs
      /\ forallb (call_from (m_managed_instance (target notifier))) cs = true
      /\ List.filter is_should_handle_call cs `prefix_of`
           admission_calls (m_managed_instance (target notifier)) signals
      /\ enqueued_handles cs =
         handles_from (N.pos (next_addr w)) (length (enqueue_calls cs))
      /\ N.pos (next_addr
                  (final_world (run should_handle notifier signals w))) =
         N.pos (next_addr w) + N.of_nat (length (enqueue_calls cs))
      /\ (forall q,
            ~ In q (handles_from (N.pos (next_addr w))
                      (length (enqueue_calls cs))) ->
            heap (final_world (run should_handle notifier signals w)) !! q =
            heap w !! q)
      /\ (heap_wf w ->
          heap_wf (final_world (run should_handle notifier signals w)))
      /\ match run should_handle notifier signals w with
         | Returns notifier' _ =>
             List.filter is_should_handle_call cs =
               admission_calls (m_managed_instance (target notifier))
                 signals
             /\ m_managed_instance (target notifier') =
                m_managed_instance (target notifier)
             /\ m_did_download (target notifier') =
                m_did_download (target notifier)
                || existsb is_download_complete signals
             /\ working_dir notifier' = working_dir notifier
             /\ sync_config notifier' = sync_config notifier
             /\ listening notifier' = listening notifier
         | _ => True
         end.
Proof.
  induction signals as [|s signals IH]; intros notifier w.
  - exists []. simpl. rewrite app_nil_r, N.add_0_r, orb_false_r.
    split_all; auto.
  - destruct (deliver_effect notifier s w)
      as (cs1 & Hcalls1 & Hfrom1 & Hadm1 & Hhandles1 & Hnext1 & Hheap1
          & Hwf1 & Hret1).
    rewrite admission_calls_cons. cbn [run]. unfold_all.
    destruct (deliver should_handle notifier s w) as [n1 w1|e1 w1|m1 w1|w1].
    + destruct Hret1 as (Hinst & Hdid & Hdir & Hconfig & Hlistening).
      cbn [final_world] in Hcalls1, Hnext1, Hheap1, Hwf1.
      destruct (IH n1 w1)
        as (cs2 & Hcalls2 & Hfrom2 & Hadm2 & Hhandles2 & Hnext2 & Hheap2
            & Hwf2 & Hret2).
      rewrite Hinst in Hfrom2, Hadm2, Hret2.
      exists (cs1 ++ cs2).
      rewrite enqueue_calls_app, length_app, handles_from_app,
        enqueued_handles_app, List.filter_app, Hadm1.
      split_all.
      * rewrite Hcalls2, Hcalls1. apply eq_sym, app_assoc.
      * apply forallb_call_from_app; assumption.
      * apply prefix_app, Hadm2.
      * rewrite Hhandles1, Hhandles2, Hnext1. reflexivity.
      * rewrite Hnext2, Hnext1. lia.
      * intros q Hq. rewrite in_app_iff in Hq.
        rewrite Hheap2 by (rewrite Hnext1; tauto).
        apply Hheap1. tauto.
      * auto.
      * destruct (run should_handle n1 signals w1) as [n2 w2| | |];
          try exact I.
        destruct Hret2 as (Hadm & Hinst2 & Hdid2 & Hdir2 & Hconfig2
                           & Hlistening2).
        rewrite Hadm, Hinst2, Hdid2, Hdid, Hdir2, Hconfig2, Hlistening2.
        cbn [existsb]. rewrite orb_assoc. split_all; auto.
    + exists cs1. rewrite Hadm1. split_all; auto.
      apply prefix_app_r. reflexivity.
    + exists cs1. rewrite Hadm1. split_all; auto.
      apply prefix_app_r. reflexivity.
    + exists cs1. rewrite Hadm1. split_all; auto.
      apply prefix_app_r. reflexivity.
Qed.

(** X1: every call into the managed side that an execution makes is a call
    of the admission, enqueue or lifecycle callback, and carries the
    managed instance the callback object was constructed with; no hook
    calls the calculation-complete callback. *)
Theorem run_calls_carry_instance
    (notifier : GlobalNotifier) (signals : list Signal) (w : World) :
  forallb (call_from (m_managed_instance (target notifier)))
    (new_calls w (run should_handle notifier signals w)) = true.
Proof.
  destruct (run_effect signals notifier w) as (cs & Hcalls & Hfrom & _).
  rewrite (new_calls_app _ _ _ Hcalls). exact Hfrom.
Qed.

(** X2: the admission predicate is asked once for every [realm_available]
    the engine signals, in the order of the signals and with the virtual
    path of each, for as long as the execution goes on, and by no other
    hook: the admission calls of an execution are an initial segment of
    those the signals ask for, and all of them when the execution
    returns. *)
Theorem run_asks_admission_per_signal
    (notifier : GlobalNotifier) (signals : list Signal) (w : World) :
  List.filter is_should_handle_call
    (new_calls w (run should_handle notifier signals w))
  `prefix_of`
  admission_calls (m_managed_instance (target notifier)) signals
  /\ match run should_handle notifier signals w with
     | Returns _ _ =>
         List.filter is_should_handle_call
           (new_calls w (run should_handle notifier signals w)) =
         admission_calls (m_managed_instance (target notifier)) signals
     | _ => True
     end.
Proof.
  destruct (run_effect signals notifier w)
    as (cs & Hcalls & _ & Hadm & _ & _ & _ & _ & Hret).
  rewrite (new_calls_app _ _ _ Hcalls). split; [exact Hadm|].
  destruct (run should_handle notifier signals w); try exact I.
  apply Hret.
Qed.

(** X3: the only objects an execution allocates are the notifications it
    hands to the enqueue callback.  The handles passed in the enqueue
    calls are the consecutive addresses starting at the next address of
    the allocator, so they are pairwise distinct and not null; the
    allocator advances by exactly the number of enqueue calls; and the heap
    is unchanged at every other address. *)
Theorem run_allocates_what_it_hands_over
    (notifier : GlobalNotifier) (signals : list Signal) (w : World) :
  enqueued_handles (new_calls w (run should_handle notifier signals w)) =
    handles_from (N.pos (next_addr w))
      (length (enqueue_calls
                 (new_calls w (run should_handle notifier signals w))))
  /\ List.NoDup
       (enqueued_handles
          (new_calls w (run should_handle notifier signals w)))
  /\ ~ In 0
       (enqueued_handles
          (new_calls w (run should_handle notifier signals w)))
  /\ N.pos (next_addr (final_world (run should_handle notifier signals w))) =
     N.pos (next_addr w)
     + N.of_nat
         (length (enqueue_calls
                    (new_calls w (run should_handle notifier signals w))))
  /\ forall q,
       ~ In q (enqueued_handles
                 (new_calls w (run should_handle notifier signals w))) ->
       heap (final_world (run should_handle notifier signals w)) !! q =
       heap w !! q.
Proof.
  destruct (run_effect signals notifier w)
    as (cs & Hcalls & _ & _ & Hhandles & Hnext & Hheap & _).
  rewrite (new_calls_app _ _ _ Hcalls), Hhandles.
  split_all; auto.
  - apply handles_from_NoDup.
  - rewrite In_handles_from. lia.
Qed.

(** X4: no hook changes the settings of the notifier.  When an execution
    returns, the callback object still serves the same managed instance,
    the working directory, the configuration and the listening state of
    the notifier are as they were, and the download flag is set exactly
    when it was set before or a [download_complete] was signalled: it is
    never cleared. *)
Theorem run_keeps_notifier_settings
    (notifier : GlobalNotifier) (signals : list Signal) (w : World) :
  match run should_handle notifier signals w with
  | Returns notifier' _ =>
      m_managed_instance (target notifier') =
        m_managed_instance (target notifier)
      /\ m_did_download (target notifier') =
         m_did_download (target notifier)
         || existsb is_download_complete signals
      /\ working_dir notifier' = working_dir notifier
      /\ sync_config notifier' = sync_config notifier
      /\ listening notifier' = listening notifier
  | _ => True
  end.
Proof.
  destruct (run_effect signals notifier w)
    as (cs & _ & _ & _ & _ & _ & _ & _ & Hret).
  destruct (run should_handle notifier signals w); try exact I.
  apply Hret.
Qed.

(** ** Errors without an error code *)

(** X5: an error that is not a [std::system_error] is never reported to the
    managed side.  Whatever the engine did before, if the execution reaches
    such an error it stops there, with the calls and the heap as they were:
    after a download in [realm::util::terminate] as for every error; before
    a download in [realm::util::terminate] too when the exception derives
    from [std::exception], its text having been sent to the logger at fatal
    level, and otherwise with the exception leaving [error] for the engine
    that called it.  If the execution had stopped earlier, the error
    changes nothing. *)
Theorem error_without_code_stops_execution
    (notifier : GlobalNotifier) (before after : list Signal) (e : exception)
    (w : World) :
  match run should_handle notifier before w with
  | Returns notifier1 w1 =>
      match e, m_did_download (target notifier1) with
      | system_error _ _, _ => True
      | _, true =>
          run should_handle notifier (before ++ sig_error e :: after) w =
          Terminated "Unhandled GlobalNotifier runtime error"
            {| heap := heap w1; next_addr := next_addr w1;
               calls := calls w1;
               logged := logged w1 ++
                 [(level_trace, "ManagedGlobalNotifier: error()")] |}
      | std_exception what, false =>
          run should_handle notifier (before ++ sig_error e :: after) w =
          Terminated "Unhandled GlobalNotifier exception type"
            {| heap := heap w1; next_addr := next_addr w1;
               calls := calls w1;
               logged := logged w1 ++
                 [(level_trace, "ManagedGlobalNotifier: error()");
                  (level_fatal,
                   "ManagedGlobalNotifier fatal error: " +:+ what)] |}
      | foreign_exception _, false =>
          run should_handle notifier (before ++ sig_error e :: after) w =
          Throws e
            {| heap := heap w1; next_addr := next_addr w1;
               calls := calls w1;
               logged := logged w1 ++
                 [(level_trace, "ManagedGlobalNotifier: error()")] |}
      end
  | stopped =>
      run should_handle notifier (before ++ sig_error e :: after) w = stopped
  end.
Proof.
  rewrite run_app.
  destruct (run should_handle notifier before w) as [n1 w1| | |];
    try reflexivity.
  cbn [run deliver]. unfold_all.
  destruct (m_did_download (target n1)) eqn:Hdid.
  - rewrite Callback_error_after_download by exact Hdid.
    destruct e; [exact I | reflexivity | reflexivity].
  - rewrite Callback_error_before_download by exact Hdid.
    destruct e; [exact I | | reflexivity].
    simpl. rewrite <- app_assoc. reflexivity.
Qed.

(** ** Handles and their release *)

Lemma cpp_delete_live_handle (of_type : Object -> bool) (p : N) (o : Object)
    (w : World) :
  p <> 0 -> heap w !! p = Some o -> of_type o = true ->
  cpp_delete of_type p w = Returns tt (set_heap (delete p (heap w)) w).
Proof.
  intros Hp Ho Ht. unfold cpp_delete.
  destruct (N.eqb_spec p 0) as [->|_]; [contradiction|].
  rewrite Ho, Ht. reflexivity.
Qed.

Lemma cpp_delete_dangling (of_type : Object -> bool) (p : N) (w : World) :
  p <> 0 -> heap w !! p = None -> cpp_delete of_type p w = Undefined w.
Proof.
  intros Hp Hnone. unfold cpp_delete.
  destruct (N.eqb_spec p 0) as [->|_]; [contradiction|].
  rewrite Hnone. reflexivity.
Qed.

(** X6: creation and destruction of a notifier compose to nothing on the
    heap.  From a world that satisfies the allocator invariant, creation
    returns; the handle it returns, if not null, was not live before; and
    destroying what it returned, a handle or null, returns with the heap
    exactly as before the creation and no call made. *)
Theorem create_destroy_round_trip
    (managed_instance : N) (configuration : SyncConfiguration)
    (encryption_key : N) (w : World) :
  heap_wf w ->
  match realm_server_create_global_notifier convert_exception
          Utf16StringAccessor configuration_error managed_instance
          configuration encryption_key w with
  | Returns (handle, _) w1 =>
      heap w !! handle = None
      /\ exists w2,
           realm_server_global_notifier_destroy handle w1 = Returns tt w2
           /\ heap w2 = heap w
           /\ calls w2 = calls w
  | _ => False
  end.
Proof.
  intros Hwf.
  unfold realm_server_create_global_notifier, GlobalNotifier_new,
    GlobalNotifier_start, realm_server_global_notifier_destroy.
  unfold_all.
  destruct (Utf16StringAccessor (url configuration)) as [realm_url|e];
    [|split; [apply heap_wf_null, Hwf | eexists; split_all; reflexivity]].
  destruct (Utf16StringAccessor (trusted_ca_path configuration))
    as [trusted_ca|e];
    [|split; [apply heap_wf_null, Hwf | eexists; split_all; reflexivity]].
  destruct (Utf16StringAccessor (partial_sync_identifier configuration))
    as [dir|e];
    [|split; [apply heap_wf_null, Hwf | eexists; split_all; reflexivity]].
  simpl.
  destruct (configuration_error dir _) as [e|];
    [split; [apply heap_wf_null, Hwf | eexists; split_all; reflexivity]|].
  simpl.
  assert (Hfresh : heap w !! N.pos (next_addr w) = None)
    by (apply heap_wf_fresh; [exact Hwf | lia]).
  split; [exact Hfresh|].
  eexists. split.
  - eapply cpp_delete_live_handle;
      [discriminate | apply lookup_insert_eq | reflexivity].
  - simpl. split; [apply delete_insert_id, Hfresh | reflexivity].
Qed.

Lemma hands_over_handles_live (managed_instance : N) (w : World)
    (cs : list Call) (changes : list ChangeNotification) :
  Forall2 (hands_over managed_instance w) cs changes ->
  forall p, In p (enqueued_handles cs) ->
    p <> 0 /\ exists change, heap w !! p = Some (NotificationObject change).
Proof.
  induction 1 as [|call change cs changes Hhead Htail IH]; intros p Hp.
  - destruct Hp.
  - destruct Hhead as (p0 & -> & Hlive & Hnull & _). simpl in Hp.
    destruct Hp as [<-|Hp]; [split; eauto | apply IH, Hp].
Qed.

(** Releasing distinct live notification handles one after the other
    succeeds and removes exactly them. *)
Lemma destroy_notifications_live (handles : list N) :
  forall w,
    List.NoDup handles ->
    (forall p, In p handles ->
       p <> 0 /\ exists change,
         heap w !! p = Some (NotificationObject change)) ->
    exists w',
      destroy_notifications handles w = Returns tt w'
      /\ (forall q, In q handles -> heap w' !! q = None)
      /\ (forall q, ~ In q handles -> heap w' !! q = heap w !! q)
      /\ calls w' = calls w
      /\ next_addr w' = next_addr w.
Proof.
  induction handles as [|handle rest IH]; intros w Hnodup Hlive.
  - exists w. split_all; auto. intros q [].
  - apply List.NoDup_cons_iff in Hnodup as [Hnotin Hnodup].
    destruct (Hlive handle (or_introl eq_refl)) as (Hnull & change & Hchange).
    cbn [destroy_notifications]. unfold_all.
    unfold realm_server_global_notifier_notification_destroy.
    rewrite (cpp_delete_live_handle _ _ _ _ Hnull Hchange) by reflexivity.
    destruct (IH (set_heap (delete handle (heap w)) w) Hnodup)
      as (w' & Hrun & Hgone & Hkept & Hcalls & Hnext).
    { intros p Hp. destruct (Hlive p (or_intror Hp)) as (Hp0 & c & Hc).
      split; [exact Hp0|]. exists c. simpl.
      rewrite lookup_delete_ne by (intros ->; contradiction). exact Hc. }
    exists w'. simpl in Hkept, Hcalls, Hnext. split_all; auto.
    + intros q [<-|Hq]; [|apply Hgone, Hq].
      rewrite Hkept by exact Hnotin. apply lookup_delete_eq.
    + intros q Hq. rewrite Hkept by (intros Hin; apply Hq; right; exact Hin).
      apply lookup_delete_ne. intros ->. apply Hq. left. reflexivity.
Qed.

(** X7: a drain pass and the release of what it handed out compose to
    nothing on the heap.  From a world that satisfies the allocator
    invariant, the drain pass returns, and destroying each handle it passed
    to the enqueue callback, in the order of the calls, returns with the
    heap exactly as before the pass and no further call made. *)
Theorem drain_destroy_round_trip
    (this : Callback) (notifier : GlobalNotifier) (extra : nat) (w : World) :
  heap_wf w ->
  exists w1 w2,
    Callback_realm_changed (S (length (ready notifier) + extra)) this
      notifier w = Returns (Some (set_ready notifier [])) w1
    /\ destroy_notifications
         (enqueued_handles
            (new_calls w
               (Callback_realm_changed (S (length (ready notifier) + extra))
                  this notifier w)))
         w1 = Returns tt w2
    /\ heap w2 = heap w
    /\ calls w2 = calls w1.
Proof.
  intros Hwf. unfold Callback_realm_changed. unfold_all.
  rewrite realm_changed_loop_drains by lia.
  set (w0 := {| heap := heap w; next_addr := next_addr w; calls := calls w;
                logged := logged w ++
                  [(level_trace,
                    "ManagedGlobalNotifier: realm_changed()")] |}).
  destruct (drained_world_effect (m_managed_instance this) (ready notifier)
              w0)
    as (cs & Hcalls & _ & _ & _ & Hhandles & _ & Hheap & _).
  destruct (drained_world_calls (m_managed_instance this) (ready notifier)
              w0)
    as (cs' & Hcalls' & Hhands & _).
  assert (cs' = cs) as ->
    by (rewrite Hcalls in Hcalls'; apply app_inv_head in Hcalls';
        symmetry; exact Hcalls').
  rewrite (new_calls_app w _ cs) by exact Hcalls.
  destruct (destroy_notifications_live (enqueued_handles cs)
              (drained_world (m_managed_instance this) (ready notifier) w0))
    as (w2 & Hrun & Hgone & Hkept & Hcalls2 & _).
  { rewrite Hhandles. apply handles_from_NoDup. }
  { apply (hands_over_handles_live _ _ _ _ Hhands). }
  eexists. exists w2. split; [reflexivity|]. split; [exact Hrun|].
  split; [|exact Hcalls2].
  apply map_eq. intros q.
  destruct (in_dec N.eq_dec q (enqueued_handles cs)) as [Hin|Hnotin].
  - rewrite (Hgone q Hin). symmetry. apply heap_wf_fresh; [exact Hwf|].
    rewrite Hhandles in Hin. apply In_handles_from in Hin.
    simpl in Hin. lia.
  - rewrite (Hkept q Hnotin). rewrite Hhandles in Hnotin.
    apply (Hheap q Hnotin).
Qed.

(** X8: neither destroy function guards against a handle that is not live.
    After a live notifier handle has been destroyed, destroying it again is
    undefined behaviour, and so is passing it to the destroy function of
    notifications instead; the same holds for a notification handle. *)
Theorem destroy_twice_undefined :
  (forall w handle notifier,
     handle <> 0 ->
     heap w !! handle = Some (NotifierHandle notifier) ->
     realm_server_global_notifier_notification_destroy handle w =
       Undefined w
     /\ exists w1,
          realm_server_global_notifier_destroy handle w = Returns tt w1
          /\ realm_server_global_notifier_destroy handle w1 = Undefined w1)
  /\ (forall w handle change,
        handle <> 0 ->
        heap w !! handle = Some (NotificationObject change) ->
        realm_server_global_notifier_destroy handle w = Undefined w
        /\ exists w1,
             realm_server_global_notifier_notification_destroy handle w =
               Returns tt w1
             /\ realm_server_global_notifier_notification_destroy handle w1
                = Undefined w1).
Proof.
  unfold realm_server_global_notifier_destroy,
    realm_server_global_notifier_notification_destroy.
  split; intros w handle o Hnull Hlive.
  - split.
    + unfold cpp_delete. destruct (N.eqb_spec handle 0); [contradiction|].
      rewrite Hlive. reflexivity.
    + eexists. split.
      * apply (cpp_delete_live_handle _ _ _ _ Hnull Hlive). reflexivity.
      * apply cpp_delete_dangling; [exact Hnull | apply lookup_delete_eq].
  - split.
    + unfold cpp_delete. destruct (N.eqb_spec handle 0); [contradiction|].
      rewrite Hlive. reflexivity.
    + eexists. split.
      * apply (cpp_delete_live_handle _ _ _ _ Hnull Hlive). reflexivity.
      * apply cpp_delete_dangling; [exact Hnull | apply lookup_delete_eq].
Qed.

(** ** Marshalling *)

Lemma In_get_indexes_vector (x : N) (s : IndexSet) :
  In x (get_indexes_vector s) <-> IndexSet_contains x s = true.
Proof.
  unfold get_indexes_vector, IndexSet_contains.
  rewrite In_as_indexes, existsb_exists.
  split; intros (r & Hr & Hx); exists r; (split; [exact Hr|]).
  - apply andb_true_iff. rewrite N.leb_le, N.ltb_lt. lia.
  - apply andb_true_iff in Hx. rewrite N.leb_le, N.ltb_lt in Hx. lia.
Qed.

Lemma marshal_changeset_same_changes (c : string * CollectionChangeSet) :
  same_changes c (marshal_changeset c).
Proof.
  unfold same_changes, marshal_changeset. simpl.
  split_all; [reflexivity | | | |]; intros x; apply In_get_indexes_vector.
Qed.

(** X9: marshalling loses nothing and invents nothing.  When the three
    calls into the engine succeed, the one structure that is delivered
    carries the path of the notification, the on-disk path of the new
    snapshot, and one changeset for each collection the engine reported,
    in the engine's order, under the collection's name; and a position
    occurs in one of its four arrays exactly when it lies in a range of the
    engine's index set for that array (deletions, insertions,
    modifications for the previous and modifications_new for the current
    modifications). *)
Theorem get_changes_delivers_all_changes
    (change : ChangeNotification) (managed_callback : N) (w : World) :
  match get_changes change, get_old_realm change, get_new_realm change with
  | Value changes, Value _, Value newRealm =>
      exists delivered w',
        realm_server_global_notifier_notification_get_changes
          convert_exception change managed_callback w =
          Returns (tt, NoError) w'
        /\ calls w' = calls w ++
             [calculation_complete_call delivered managed_callback]
        /\ path delivered = realm_path change
        /\ path_on_disk delivered = config_path newRealm
        /\ length (changesets delivered) = length changes
        /\ Forall2 same_changes changes (changesets delivered)
  | _, _, _ => True
  end.
Proof.
  generalize (get_changes_outcome convert_exception change managed_callback w).
  destruct (get_changes change) as [changes|e]; [|intros _; exact I].
  destruct (get_old_realm change) as [old_realm|e]; [|intros _; exact I].
  destruct (get_new_realm change) as [newRealm|e]; [|intros _; exact I].
  intros (delivered & w' & Hrun & Hcalls & Hpath & Hdisk & Hsets & _).
  exists delivered, w'. rewrite Hsets, length_map. split_all; auto.
  clear. induction changes as [|c changes IH]; simpl; constructor; auto.
  apply marshal_changeset_same_changes.
Qed.

(** X10: a failure late in a request for the changes leaves a handle
    behind.  When the engine gives the changes and a previous snapshot but
    throws on the new snapshot, the request returns the error and makes no
    call, yet the handle allocated for the previous snapshot stays on the
    heap, passed to nobody.  When an earlier call into the engine throws,
    or there is no previous snapshot, the failed request leaves the world
    as it was. *)
Theorem get_changes_failure_leaves_previous_handle
    (change : ChangeNotification) (managed_callback : N) (w : World) :
  match get_changes change, get_old_realm change, get_new_realm change with
  | Value _, Value (Some old), Raise e =>
      realm_server_global_notifier_notification_get_changes
        convert_exception change managed_callback w =
      Returns (tt, for_marshalling convert_exception e)
        {| heap := <[N.pos (next_addr w) := SharedRealmObject (Some old)]>
                     (heap w);
           next_addr := Pos.succ (next_addr w);
           calls := calls w; logged := logged w |}
  | Raise e, _, _ | Value _, Raise e, _ | Value _, Value None, Raise e =>
      realm_server_global_notifier_notification_get_changes
        convert_exception change managed_callback w =
      Returns (tt, for_marshalling convert_exception e) w
  | Value _, Value _, Value _ => True
  end.
Proof.
  unfold realm_server_global_notifier_notification_get_changes. unfold_all.
  destruct (get_changes change) as [changes|e]; [|reflexivity].
  destruct (get_old_realm change) as [[old|]|e]; [| |reflexivity];
    destruct (get_new_realm change) as [newRealm|e];
    first [exact I | reflexivity].
Qed.

(** ** Opening a realm for writing *)

(** X11: [realm_server_global_notifier_get_realm_for_writing], given a
    snapshot, asks the engine for the realm at the path of that snapshot
    with caching switched on, and never lets an exception through.  When
    the engine opens the realm, the function returns a handle that is not
    null, with no error, that owns the opened realm and, under the
    allocator invariant, was not live before; every other address of the
    heap is untouched.  When the engine throws, the function returns a null
    handle and the converted error, and the world is as it was.  No call
    into the managed side is made either way. *)
Theorem get_realm_for_writing_opens_cached
    (realm : Realm) (w : World) :
  match get_shared_realm
          {| realm_config_path := config_path realm;
             realm_config_cache := true |} with
  | Value opened =>
      exists handle w',
        realm_server_global_notifier_get_realm_for_writing
          convert_exception get_shared_realm (Some realm) w =
          Returns (handle, NoError) w'
        /\ handle <> 0
        /\ heap w' !! handle = Some (SharedRealmObject (Some opened))
        /\ (forall q, q <> handle -> heap w' !! q = heap w !! q)
        /\ (heap_wf w -> heap w !! handle = None /\ heap_wf w')
        /\ calls w' = calls w
  | Raise e =>
      realm_server_global_notifier_get_realm_for_writing
        convert_exception get_shared_realm (Some realm) w =
      Returns (0, for_marshalling convert_exception e) w
  end.
Proof.
  unfold realm_server_global_notifier_get_realm_for_writing. unfold_all.
  destruct (get_shared_realm _) as [opened|e]; [|reflexivity].
  eexists. eexists. split; [reflexivity|]. simpl. split_all.
  - discriminate.
  - apply lookup_insert_eq.
  - intros q Hq. apply lookup_insert_ne. congruence.
  - intros Hwf. split.
    + apply heap_wf_fresh; [exact Hwf | lia].
    + apply heap_wf_insert, Hwf.
  - reflexivity.
Qed.

(** ** What a request for the changes leaves alone *)

(** X12: a request for the changes touches no object that was live.  When
    it succeeds, the heap differs from the heap before at the two snapshot
    handles of the delivered structure only, and under the allocator
    invariant neither of them was live before, so no handle held by the
    managed side is overwritten. *)
Theorem get_changes_touches_nothing_live
    (change : ChangeNotification) (managed_callback : N) (w : World) :
  match get_changes change, get_old_realm change, get_new_realm change with
  | Value _, Value _, Value _ =>
      exists delivered w',
        realm_server_global_notifier_notification_get_changes
          convert_exception change managed_callback w =
          Returns (tt, NoError) w'
        /\ calls w' = calls w ++
             [calculation_complete_call delivered managed_callback]
        /\ (forall q,
              q <> previous delivered -> q <> current delivered ->
              heap w' !! q = heap w !! q)
        /\ (heap_wf w ->
            heap w !! current delivered = None
            /\ heap w !! previous delivered = None)
  | _, _, _ => True
  end.
Proof.
  unfold realm_server_global_notifier_notification_get_changes. unfold_all.
  destruct (get_changes change) as [changes|e]; [|exact I].
  destruct (get_old_realm change) as [[old|]|e]; [| |exact I];
    (destruct (get_new_realm change) as [newRealm|e]; [|exact I]);
    simpl; eexists; eexists; (split; [reflexivity|]); simpl; split_all;
    try reflexivity.
  - intros q Hprev Hcur. simpl in *.
    rewrite !lookup_insert_ne by congruence. reflexivity.
  - intros Hwf. simpl. split; apply heap_wf_fresh; try exact Hwf; lia.
  - intros q _ Hcur. simpl in *. apply lookup_insert_ne. congruence.
  - intros Hwf. simpl. split; [apply heap_wf_fresh; [exact Hwf | lia]|].
    apply heap_wf_null, Hwf.
Qed.

(** ** From creation to the callbacks *)

(** X14: a notifier serves the managed instance it was created for.  When
    creation succeeds, the notifier behind the returned handle is such that
    every call any execution of its hooks makes into the managed side
    carries the managed instance given to the creation, and a
    [download_complete] signalled first is reported to that instance with
    code 0. *)
Theorem created_notifier_serves_its_instance
    (managed_instance : N) (configuration : SyncConfiguration)
    (encryption_key : N) (w : World) :
  match realm_server_create_global_notifier convert_exception
          Utf16StringAccessor configuration_error managed_instance
          configuration encryption_key w with
  | Returns (handle, NoError) w1 =>
      exists notifier,
        heap w1 !! handle = Some (NotifierHandle notifier)
        /\ forall signals w2,
             forallb (call_from managed_instance)
               (new_calls w2 (run should_handle notifier signals w2)) = true
             /\ hd_error
                  (new_calls w2
                     (run should_handle notifier
                        (sig_download_complete :: signals) w2)) =
                Some (start_call managed_instance 0 None)
  | _ => True
  end.
Proof.
  unfold realm_server_create_global_notifier, GlobalNotifier_new,
    GlobalNotifier_start.
  unfold_all.
  destruct (Utf16StringAccessor (url configuration)) as [realm_url|e];
    [|exact I].
  destruct (Utf16StringAccessor (trusted_ca_path configuration))
    as [trusted_ca|e]; [|exact I].
  destruct (Utf16StringAccessor (partial_sync_identifier configuration))
    as [dir|e]; [|exact I].
  simpl. destruct (configuration_error dir _) as [e|]; [exact I|].
  simpl. eexists. split; [apply lookup_insert_eq|].
  intros signals w2. split.
  - match goal with
    | |- context [run should_handle ?n signals w2] =>
        destruct (run_effect signals n w2) as (cs & Hcalls & Hfrom & _)
    end.
    rewrite (new_calls_app _ _ _ Hcalls). exact Hfrom.
  - cbn [run deliver]. unfold_all. rewrite Callback_download_complete_spec.
    match goal with
    | |- context [run should_handle ?n signals ?w3] =>
        destruct (run_effect signals n w3) as (cs & Hcalls & _)
    end.
    cbn [calls] in Hcalls. rewrite <- app_assoc in Hcalls.
    rewrite (new_calls_app _ _ _ Hcalls). reflexivity.
Qed.

End Ownership.

(** ** The further properties on the sample data *)

Lemma sample_live_world_wf : heap_wf sample_live_world.
Proof.
  intros p [o Ho]. simpl in Ho.
  rewrite lookup_insert in Ho. destruct (decide (1 = p)) as [<-|_].
  - split; [discriminate | reflexivity].
  - rewrite lookup_insert in Ho. destruct (decide (2 = p)) as [<-|_].
    + split; [discriminate | reflexivity].
    + rewrite lookup_empty in Ho. discriminate.
Qed.

Lemma create_destroy_round_trip_witness :
  heap_wf sample_live_world
  /\ match realm_server_create_global_notifier sample_convert_exception
             sample_Utf16StringAccessor sample_configuration_error 42
             sample_configuration 0 sample_live_world with
     | Returns (handle, _) w1 =>
         heap sample_live_world !! handle = None
         /\ exists w2,
              realm_server_global_notifier_destroy handle w1 = Returns tt w2
              /\ heap w2 = heap sample_live_world
              /\ calls w2 = calls sample_live_world
     | _ => False
     end.
Proof.
  split; [exact sample_live_world_wf|].
  apply (create_destroy_round_trip sample_convert_exception
           sample_Utf16StringAccessor sample_configuration_error 42
           sample_configuration 0 sample_live_world sample_live_world_wf).
Defined.

Lemma drain_destroy_round_trip_witness :
  heap_wf sample_live_world
  /\ exists w1 w2,
       Callback_realm_changed 3 (Callback_new 42) sample_ready_notifier
         sample_live_world =
         Returns (Some (set_ready sample_ready_notifier [])) w1
       /\ destroy_notifications
            (enqueued_handles
               (new_calls sample_live_world
                  (Callback_realm_changed 3 (Callback_new 42)
                     sample_ready_notifier sample_live_world)))
            w1 = Returns tt w2
       /\ heap w2 = heap sample_live_world
       /\ calls w2 = calls w1.
Proof.
  split; [exact sample_live_world_wf|].
  apply (drain_destroy_round_trip (Callback_new 42) sample_ready_notifier 0
           sample_live_world sample_live_world_wf).
Defined.

Lemma destroy_twice_undefined_witness :
  (1 <> 0
   /\ heap sample_live_world !! 1 = Some (NotifierHandle sample_notifier)
   /\ realm_server_global_notifier_notification_destroy 1 sample_live_world
      = Undefined sample_live_world
   /\ exists w1,
        realm_server_global_notifier_destroy 1 sample_live_world =
          Returns tt w1
        /\ realm_server_global_notifier_destroy 1 w1 = Undefined w1)
  /\ (2 <> 0
      /\ heap sample_live_world !! 2 =
           Some (NotificationObject (sample_change "/a" None))
      /\ realm_server_global_notifier_destroy 2 sample_live_world =
           Undefined sample_live_world
      /\ exists w1,
           realm_server_global_notifier_notification_destroy 2
             sample_live_world = Returns tt w1
           /\ realm_server_global_notifier_notification_destroy 2 w1 =
              Undefined w1).
Proof.
  destruct destroy_twice_undefined as [Hnotifier Hnotification].
  split; (split; [discriminate|]); (split; [reflexivity|]).
  - apply (Hnotifier sample_live_world 1 sample_notifier);
      [discriminate | reflexivity].
  - apply (Hnotification sample_live_world 2 (sample_change "/a" None));
      [discriminate | reflexivity].
Defined.

Lemma get_changes_touches_nothing_live_witness :
  heap_wf sample_live_world
  /\ exists delivered w',
       realm_server_global_notifier_notification_get_changes
         sample_convert_exception
         (sample_change "/b"
            (Some {| config_path := "/tmp/b"; version := 1 |}))
         9 sample_live_world = Returns (tt, NoError) w'
       /\ calls w' = calls sample_live_world ++
            [calculation_complete_call delivered 9]
       /\ (forall q,
             q <> previous delivered -> q <> current delivered ->
             heap w' !! q = heap sample_live_world !! q)
       /\ (heap_wf sample_live_world ->
           heap sample_live_world !! current delivered = None
           /\ heap sample_live_world !! previous delivered = None).
Proof.
  split; [exact sample_live_world_wf|].
  apply (get_changes_touches_nothing_live sample_convert_exception
           (sample_change "/b"
              (Some {| config_path := "/tmp/b"; version := 1 |}))
           9 sample_live_world).
Defined.

Lemma get_realm_for_writing_opens_cached_witness :
  heap_wf sample_live_world
  /\ exists handle w',
       realm_server_global_notifier_get_realm_for_writing
         sample_convert_exception sample_get_shared_realm
         (Some {| config_path := "/tmp/b"; version := 1 |})
         sample_live_world = Returns (handle, NoError) w'
       /\ handle <> 0
       /\ heap w' !! handle =
            Some (SharedRealmObject
                    (Some {| config_path := "/tmp/b"; version := 3 |}))
       /\ (forall q, q <> handle ->
             heap w' !! q = heap sample_live_world !! q)
       /\ (heap_wf sample_live_world ->
           heap sample_live_world !! handle = None /\ heap_wf w')
       /\ calls w' = calls sample_live_world.
Proof.
  split; [exact sample_live_world_wf|].
  apply (get_realm_for_writing_opens_cached sample_convert_exception
           sample_get_shared_realm
           {| config_path := "/tmp/b"; version := 1 |} sample_live_world).
Defined.
